(** * WorldPop tile stacking: a model of [netcdf/netcdf_creation.py]

    The script scans a folder of single-band GeoTIFF tiles named
    [<country>_<gender>_<age>_<year>...tif], keeps one year, checks that
    all tiles share one geometry, stacks them lazily into a
    (gender, age, y, x) array and derives pixel-centre coordinates.

    File names are strings of 8-bit characters; names with code points
    above 255 are outside this model.  Floating point values are IEEE
    binary64 ([PrimFloat]), as numpy's [float64].  The folder is a
    function from file names to what rasterio shows of each file.  The
    model ends where step 6 has the lazy array and the coordinate
    vectors: the CF attributes of the dataset and the NetCDF writer are
    library calls and are not modelled. *)

From Stdlib Require Import List String Ascii Bool Arith ZArith QArith Qabs.
From Stdlib Require Import Lia Lqa.
From Stdlib Require Import PrimFloat Uint63.
From stdpp Require Import base option list gmap strings sorting.

Local Open Scope string_scope.
Local Open Scope list_scope.

(** ** Characters and strings, as Python's [str] methods see them *)

Definition code (c : ascii) : nat := nat_of_ascii c.

Definition in_range (lo hi c : ascii) : bool :=
  (code lo <=? code c)%nat && (code c <=? code hi)%nat.

Definition chr_lower (c : ascii) : ascii :=
  if in_range "A" "Z" c then ascii_of_nat (code c + 32) else c.

Definition chr_upper (c : ascii) : ascii :=
  if in_range "a" "z" c then ascii_of_nat (code c - 32) else c.

(** [s.lower()] *)
Fixpoint lower (s : string) : string :=
  match s with
  | EmptyString => EmptyString
  | String c s' => String (chr_lower c) (lower s')
  end.

(** [s.endswith(suffix)] *)
Definition endswith (s suffix : string) : bool :=
  let n := String.length s in
  let k := String.length suffix in
  (k <=? n)%nat && String.eqb (substring (n - k) k s) suffix.

(** [int(s)] on strings of ASCII decimal digits, the only ones the
    pattern's [age] group lets through; on any other string the model
    answers [None], which main turns into a [ValueError]. *)
Definition digit_val (c : ascii) : option nat :=
  if in_range "0" "9" c then Some (code c - 48) else None.

Fixpoint int_digits (acc : nat) (s : string) : option nat :=
  match s with
  | EmptyString => Some acc
  | String c s' =>
      match digit_val c with
      | Some d => int_digits (10 * acc + d) s'
      | None => None
      end
  end.

Definition py_int (s : string) : option nat :=
  match s with
  | EmptyString => None
  | _ => int_digits 0 s
  end.

(** ** A backtracking matcher for the constructs [STRICT_REGEX] uses *)

Module Re.

(** Character sets of the pattern. *)
Inductive cset : Type :=
| Range (lo hi : ascii)        (* [a-z] *)
| OneOf (cs : string)          (* [fmt], [_-], a literal character *)
| Digit                        (* \d *)
| Dot.                         (* . : anything but a line feed *)

Fixpoint mem (c : ascii) (cs : string) : bool :=
  match cs with
  | EmptyString => false
  | String d cs' => Ascii.eqb c d || mem c cs'
  end.

Definition newline : ascii := ascii_of_nat 10.

Definition cset_has (cl : cset) (c : ascii) : bool :=
  match cl with
  | Range lo hi => in_range lo hi c
  | OneOf cs => mem c cs
  | Digit => in_range "0" "9" c
  | Dot => negb (Ascii.eqb c newline)
  end.

(** With [re.IGNORECASE] a character matches a set when it, its lower
    case or its upper case is in the set. *)
Definition accepts (ignorecase : bool) (cl : cset) (c : ascii) : bool :=
  cset_has cl c
  || (ignorecase && (cset_has cl (chr_lower c) || cset_has cl (chr_upper c))).

Inductive re : Type :=
| Chr (cl : cset)              (* one character of a set *)
| Cat (r1 r2 : re)             (* r1 r2 *)
| Times (n : nat) (r : re)     (* r{n} *)
| Opt (r : re)                 (* (?:r)?  greedy *)
| Plus (cl : cset)             (* cl+     greedy *)
| Group (name : string) (r : re)  (* (?P<name>r) *)
| Eos.                         (* $ without re.MULTILINE *)

(** Named groups of a match, most recent first. *)
Definition groups : Type := list (string * string).

Fixpoint group (name : string) (g : groups) : option string :=
  match g with
  | [] => None
  | (n, v) :: g' => if String.eqb n name then Some v else group name g'
  end.

(** The text consumed between the remaining input [s] and the later
    remaining input [s']. *)
Definition consumed (s s' : string) : string :=
  substring 0 (String.length s - String.length s') s.

Section Run.
Variable ignorecase : bool.

(** Greedy [cl+]: take as many characters as possible, give back one
    at a time while the rest of the pattern fails. *)
Fixpoint plus (cl : cset) (s : string) (k : string -> option groups)
  : option groups :=
  match s with
  | EmptyString => None
  | String c s' =>
      if accepts ignorecase cl c then
        match plus cl s' k with
        | Some g => Some g
        | None => k s'
        end
      else None
  end.

(** [run r s g k]: match [r] at the front of [s] with the groups [g]
    found so far, then continue with [k] on what is left; the first
    success in backtracking order wins. *)
Fixpoint run (r : re) (s : string) (g : groups)
  (k : string -> groups -> option groups) {struct r} : option groups :=
  match r with
  | Chr cl =>
      match s with
      | String c s' => if accepts ignorecase cl c then k s' g else None
      | EmptyString => None
      end
  | Cat r1 r2 => run r1 s g (fun s' g' => run r2 s' g' k)
  | Times n r1 =>
      (fix times (n : nat) (s : string) (g : groups) : option groups :=
         match n with
         | O => k s g
         | S n' => run r1 s g (fun s' g' => times n' s' g')
         end) n s g
  | Opt r1 =>
      match run r1 s g k with
      | Some g' => Some g'
      | None => k s g
      end
  | Plus cl => plus cl s (fun s' => k s' g)
  | Group name r1 =>
      run r1 s g (fun s' g' => k s' ((name, consumed s s') :: g'))
  | Eos =>
      match s with
      | EmptyString => k s g
      | String c EmptyString => if Ascii.eqb c newline then k s g else None
      | _ => None
      end
  end.
End Run.

(** [pattern.match(s)]: anchored at the start of [s], where the
    pattern's leading [^] always holds; the groups of the match, or
    [None]. *)
Definition rmatch (ignorecase : bool) (r : re) (s : string) : option groups :=
  run ignorecase r s [] (fun _ g => Some g).

End Re.

Import Re.

(** [STRICT_REGEX]:
    [^(?P<country>[a-z]{3})[_-](?P<gender>[fmt])[_-](?P<age>\d{2})[_-]
     (?P<year>\d{4})(?:[_-].+)?\.tif$], compiled with [re.IGNORECASE]. *)
Definition sep : re := Chr (OneOf "_-").

Definition lit (c : ascii) : re := Chr (OneOf (String c EmptyString)).

Definition STRICT_REGEX : re :=
  Cat (Group "country" (Times 3 (Chr (Range "a" "z"))))
 (Cat sep
 (Cat (Group "gender" (Chr (OneOf "fmt")))
 (Cat sep
 (Cat (Group "age" (Times 2 (Chr Digit)))
 (Cat sep
 (Cat (Group "year" (Times 4 (Chr Digit)))
 (Cat (Opt (Cat sep (Plus Dot)))
 (Cat (lit ".") (Cat (lit "t") (Cat (lit "i") (Cat (lit "f") Eos))))))))))).

Definition STRICT_REGEX_match (fn : string) : option groups :=
  rmatch true STRICT_REGEX fn.

(** ** Records of the parse step (main, step 2) *)

Record rec : Type := mkRec {
  filename : string;
  gender : string;
  age : string;
  year : string
}.

(** The body of the loop over [files]: a record for a name that matches,
    nothing otherwise. *)
Definition parse (fn : string) : option rec :=
  match STRICT_REGEX_match fn with
  | Some m =>
      match group "gender" m, group "age" m, group "year" m with
      | Some g, Some a, Some y => Some (mkRec fn (lower g) a y)
      | _, _, _ => None
      end
  | None => None
  end.

(** Step 2: the records of the names that match, in listing order. *)
Definition parse_files (files : list string) : list rec := omap parse files.

(** ** File names of the documented form *)

Fixpoint every (p : ascii -> bool) (s : string) : bool :=
  match s with
  | EmptyString => true
  | String c s' => p c && every p s'
  end.

Definition is_letter (c : ascii) : bool :=
  in_range "a" "z" c || in_range "A" "Z" c.

Definition is_digit (c : ascii) : bool := in_range "0" "9" c.

Definition is_sep (c : ascii) : bool := Ascii.eqb c "_" || Ascii.eqb c "-".

(** The letters the pattern's [gender] group takes, in either case. *)
Definition is_fmt (c : ascii) : bool := mem (chr_lower c) "fmt".

Definition not_newline (c : ascii) : bool := negb (Ascii.eqb c newline).

(** A qualifier [<sep><text>]: a separator and a text that is not empty
    and holds no line feed. *)
Definition qualifier_ok (q : option (ascii * string)) : bool :=
  match q with
  | None => true
  | Some (s4, t) =>
      is_sep s4 && negb (String.eqb t "") && every not_newline t
  end.

Definition qualifier_text (q : option (ascii * string)) : string :=
  match q with
  | None => ""
  | Some (s4, t) => String s4 t
  end.

(** [<country><s1><axis1><s2><age><s3><year>[<qualifier>]<ext>] *)
Definition tile_name (country : string) (axis1 : ascii) (age year : string)
  (s1 s2 s3 : ascii) (q : option (ascii * string)) (ext : string) : string :=
  country +:+ String s1 (String axis1 (String s2
    (age +:+ String s3 (year +:+ qualifier_text q +:+ ext)))).

(** The name's parts are as the documentation of the input says:
    three letters, a separator, one letter, two digits, four digits, an
    optional qualifier and the extension in either case. *)
Record name_form (country : string) (axis1 : ascii) (age year : string)
  (s1 s2 s3 : ascii) (q : option (ascii * string)) (ext : string) : Prop :=
  mkForm {
    form_country : String.length country = 3 /\ every is_letter country = true;
    form_axis1 : is_letter axis1 = true;
    form_age : String.length age = 2 /\ every is_digit age = true;
    form_year : String.length year = 4 /\ every is_digit year = true;
    form_seps : is_sep s1 = true /\ is_sep s2 = true /\ is_sep s3 = true;
    form_qualifier : qualifier_ok q = true;
    form_ext : lower ext = ".tif"
  }.

(** ** Messages and outcomes

    [log(msg)] prints a line; the model records one event per call site,
    with the values the f-string interpolates.  [sys.exit(msg)] carries
    its message as the string the code builds. *)

Inductive event : Type :=
| LogScanning                                (* "[1/9] Scanning input folder" *)
| LogFound (n : nat)                         (* "Found {n} tif files" *)
| LogUsing (year : string) (n : nat)         (* "Using year=..., files=..." *)
| LogGenders (gs : list string)              (* "Genders=..." *)
| LogAges (ags : list string)                (* "Ages=..." *)
| LogInspecting (basename : string)          (* "[3/9] Inspecting sample raster" *)
| LogSample (h w : nat) (dtype : string)     (* "Shape=..., CRS=..., dtype=..." *)
| LogChecking                                (* "[4/9] Checking consistency" *)
| LogChecked (i n : nat)                     (* "...checked {i}/{n}" *)
| LogBuilding                                (* "[5/9] Building dask array" *)
| LogMissing (g a : string)                  (* "MISSING tile gender=..., age=..." *)
| LogShape (shape : list nat)                (* "Dask array shape=..." *)
| LogCoords                                  (* "[6/9] Building coordinates" *)
| WarnRotated.                               (* "WARNING: grid is rotated/sheared" *)

Inductive exn : Type :=
| IndexError        (* list index out of range *)
| ValueError        (* int() of a non-number, stacking no arrays *)
| RasterioIOError.  (* a file that cannot be opened *)

Inductive result (A : Type) : Type :=
| Ok (x : A)
| Exit (msg : string)     (* sys.exit(msg) *)
| Raise (err : exn).      (* an exception nobody catches *)

Arguments Ok {A} x.
Arguments Exit {A} msg.
Arguments Raise {A} err.

(** A computation: the lines logged so far and how it ended. *)
Definition M (A : Type) : Type := list event * result A.

Definition ret {A} (x : A) : M A := ([], Ok x).

Definition bind {A B} (m : M A) (f : A -> M B) : M B :=
  match m with
  | (l, Ok x) => let '(l', r) := f x in (l ++ l', r)
  | (l, Exit msg) => (l, Exit msg)
  | (l, Raise err) => (l, Raise err)
  end.

Definition log (ev : event) : M unit := ([ev], Ok tt).

Definition sys_exit {A} (msg : string) : M A := ([], Exit msg).

Definition raise {A} (err : exn) : M A := ([], Raise err).

Notation "'do' x <- m ; k" := (bind m (fun x => k))
  (at level 10, x name, m at level 100, k at level 200).
Notation "'exec' m ; k" := (bind m (fun _ => k))
  (at level 10, m at level 100, k at level 200).

(** ** Affine transforms and [compute_coords] *)

Record Affine (F : Type) : Type := mkAffine {
  tr_a : F; tr_b : F; tr_c : F; tr_d : F; tr_e : F; tr_f : F
}.

Arguments mkAffine {F}.
Arguments tr_a {F}. Arguments tr_b {F}. Arguments tr_c {F}.
Arguments tr_d {F}. Arguments tr_e {F}. Arguments tr_f {F}.

(** [np.arange(n)] *)
Definition np_arange (n : nat) : list nat := seq 0 n.

Section Coords.
Context {F : Type}.
Variables (add mul : F -> F -> F) (of_nat : nat -> F) (half : F).
Variables (fabs : F -> F) (lt : F -> F -> bool) (eps : F).

Definition north_up (t : Affine F) : bool :=
  lt (fabs (tr_b t)) eps && lt (fabs (tr_d t)) eps.

(** [c + (i + 0.5) * a + 0.5 * b] *)
Definition centre (origin step shear : F) (i : nat) : F :=
  add (add origin (mul (add (of_nat i) half) step)) (mul half shear).

Definition compute_coords (t : Affine F) (h w : nat) : M (list F * list F) :=
  exec (if negb (north_up t) then log WarnRotated else ret tt);
  let x := map (centre (tr_c t) (tr_a t) (tr_b t)) (np_arange w) in
  let y := map (centre (tr_f t) (tr_e t) (tr_d t)) (np_arange h) in
  ret (x, y).
End Coords.

(** The script's arithmetic: numpy [float64]; [1e-12] is the nearest
    binary64 value. *)
Definition float_of_nat (i : nat) : float := of_uint63 (Uint63.of_Z (Z.of_nat i)).

Definition eps64 : float := 0x1.19799812dea11p-40%float.

Definition compute_coords64 : Affine float -> nat -> nat -> M (list float * list float) :=
  compute_coords PrimFloat.add PrimFloat.mul float_of_nat 0.5%float
    PrimFloat.abs PrimFloat.ltb eps64.

(** The same code over exact rationals, to speak of the formula without
    binary64 rounding. *)
Definition Qlt_bool (x y : Q) : bool := negb (Qle_bool y x).

Definition compute_coordsQ : Affine Q -> nat -> nat -> M (list Q * list Q) :=
  compute_coords Qplus Qmult (fun i => inject_Z (Z.of_nat i)) (1 # 2)%Q
    Qabs Qlt_bool (1 # 1000000000000)%Q.

(** ** Sorted sets and list items *)

(** [sorted({...})] of strings: distinct values in code point order. *)
Definition sorted_set (l : list string) : list string :=
  merge_sort String.le (remove_dups l).

Definition int_key (s : string) : nat := default 0 (py_int s).

Definition int_le (s t : string) : Prop := (int_key s <= int_key t)%nat.

#[global] Instance int_le_dec : RelDecision int_le.
Proof. intros s t. unfold int_le. apply _. Defined.

(** [sorted({...}, key=int)]: distinct values by their number.  Two digit
    strings of the same length have different numbers, so the order of
    the ages of parsed records does not depend on the set's iteration
    order. *)
Definition sorted_by_int (l : list string) : M (list string) :=
  let s := remove_dups l in
  if forallb (fun a => bool_decide (is_Some (py_int a))) s
  then ret (merge_sort int_le s)
  else raise ValueError.

(** [years[-1]] *)
Definition last_item (l : list string) : M string :=
  match last l with
  | Some y => ret y
  | None => raise IndexError
  end.

(** [recs[0]] *)
Definition first_item (recs : list rec) : M rec :=
  match recs with
  | r :: _ => ret r
  | [] => raise IndexError
  end.

(** ** Rasters, as [rasterio.open] shows them *)

Section Main.
Context {CRS : Type} {px : Type}.
Variable crs_ne : CRS -> CRS -> bool.   (* [!=] of rasterio's CRS *)
Variable px0 : px.                      (* the zero of the pixel type *)

Record raster : Type := mkRaster {
  height : nat;
  width : nat;
  crs : CRS;
  transform : Affine float;
  dtype0 : string;               (* s.dtypes[0] *)
  nodata0 : option float;        (* s.nodatavals[0] *)
  band1 : list (list px)         (* s.read(1) *)
}.

(** The input folder: what opening a file name gives; [None] for a file
    rasterio cannot open. *)
Definition folder : Type := string -> option raster.

Definition rio_open (fs : folder) (fn : string) : M raster :=
  match fs fn with
  | Some s => ret s
  | None => raise RasterioIOError
  end.

(** [!=] of two [Affine] tuples: some coefficient pair is not [==]. *)
Definition transform_ne (t u : Affine float) : bool :=
  negb (PrimFloat.eqb (tr_a t) (tr_a u) && PrimFloat.eqb (tr_b t) (tr_b u)
        && PrimFloat.eqb (tr_c t) (tr_c u) && PrimFloat.eqb (tr_d t) (tr_d u)
        && PrimFloat.eqb (tr_e t) (tr_e u) && PrimFloat.eqb (tr_f t) (tr_f u)).

Definition shape_ne (hw hw' : nat * nat) : bool :=
  negb ((fst hw =? fst hw')%nat && (snd hw =? snd hw')%nat).

(** ** Step 4: the consistency check *)

(** The loop [for i, r in enumerate(recs, 1)], from index [i] on; [n] is
    [len(recs)]. *)
Fixpoint check_from (fs : folder) (h w : nat) (c : CRS) (t : Affine float)
  (n i : nat) (rs : list rec) : M unit :=
  match rs with
  | [] => ret tt
  | r :: rs' =>
      do s <- rio_open fs (filename r);
      if crs_ne (crs s) c then sys_exit ("CRS mismatch " +:+ filename r)
      else if transform_ne (transform s) t
      then sys_exit ("Transform mismatch " +:+ filename r)
      else if shape_ne (height s, width s) (h, w)
      then sys_exit ("Shape mismatch " +:+ filename r)
      else
        exec (if (i mod 10 =? 0)%nat || (i =? n)%nat
              then log (LogChecked i n) else ret tt);
        check_from fs h w c t n (S i) rs'
  end.

Definition check_consistency (fs : folder) (h w : nat) (c : CRS)
  (t : Affine float) (recs : list rec) : M unit :=
  exec log LogChecking;
  check_from fs h w c t (length recs) 1 recs.

(** ** Step 5: the lazy array *)

(** A dask array is a recipe; nothing is read until it is computed. *)
#[warnings="-register-all"]
Inductive darray : Type :=
| Zeros (shape : list nat) (dtype : string) (chunks : list nat)
| FromDelayed (fp : string) (shape : list nat) (dtype : string)
| Rechunk (d : darray) (chunks : list nat)
| Stack (xs : list darray).            (* da.stack(xs, axis=0) *)

Fixpoint shape (d : darray) : list nat :=
  match d with
  | Zeros sh _ _ => sh
  | FromDelayed _ sh _ => sh
  | Rechunk d' _ => shape d'
  | Stack xs =>
      length xs :: match xs with x :: _ => shape x | [] => [] end
  end.

Fixpoint dtype_of (d : darray) : string :=
  match d with
  | Zeros _ dt _ => dt
  | FromDelayed _ _ dt => dt
  | Rechunk d' _ => dtype_of d'
  | Stack xs => match xs with x :: _ => dtype_of x | [] => "" end
  end.

(** [da.stack] refuses an empty list and arrays of different shapes. *)
Definition da_stack (xs : list darray) : M darray :=
  match xs with
  | [] => raise ValueError
  | x :: _ =>
      if forallb (fun y => bool_decide (shape y = shape x)) xs
      then ret (Stack xs)
      else raise ValueError
  end.

(** [data[i]] *)
Definition item (d : darray) (i : nat) : option darray :=
  match d with
  | Stack xs => xs !! i
  | _ => None
  end.

(** A computed 2-D array. *)
Record array2 : Type := mkArray2 {
  arr_dtype : string;
  arr_rows : list (list px)
}.

Definition np_zeros (h w : nat) (dtype : string) : array2 :=
  mkArray2 dtype (repeat (repeat px0 w) h).

(** Computing one 2-D slab: zeros are made, a delayed read opens the
    file and reads band 1. *)
Fixpoint compute_slab (fs : folder) (d : darray) : option array2 :=
  match d with
  | Zeros [h; w] dt _ => Some (np_zeros h w dt)
  | Zeros _ _ _ => None
  | FromDelayed fp _ _ =>
      match fs fp with
      | Some s => Some (mkArray2 (dtype0 s) (band1 s))
      | None => None
      end
  | Rechunk d' _ => compute_slab fs d'
  | Stack _ => None
  end.

(** [mat = {(r["gender"], r["age"]): r["filename"] for r in recs}] *)
Definition tile_matrix (recs : list rec) : gmap (string * string) string :=
  foldl (fun m r => <[(gender r, age r) := filename r]> m) ∅ recs.

Definition chunk1024 : list nat := [1024; 1024].

(** The body of the inner loop: the array of one (gender, age) pair. *)
Definition tile (mat : gmap (string * string) string) (h w : nat)
  (dtype : string) (g a : string) : M darray :=
  match mat !! (g, a) with
  | Some (String c fn') =>
      ret (Rechunk (FromDelayed (String c fn') [h; w] dtype) chunk1024)
  | _ =>
      exec log (LogMissing g a);
      ret (Zeros [h; w] dtype chunk1024)
  end.

Fixpoint build_row (mat : gmap (string * string) string) (h w : nat)
  (dtype : string) (g : string) (ages : list string) : M (list darray) :=
  match ages with
  | [] => ret []
  | a :: ages' =>
      do arr <- tile mat h w dtype g a;
      do row <- build_row mat h w dtype g ages';
      ret (arr :: row)
  end.

Fixpoint build_tiles (mat : gmap (string * string) string) (h w : nat)
  (dtype : string) (genders ages : list string) : M (list darray) :=
  match genders with
  | [] => ret []
  | g :: genders' =>
      do row <- build_row mat h w dtype g ages;
      do stacked <- da_stack row;
      do tiles <- build_tiles mat h w dtype genders' ages;
      ret (stacked :: tiles)
  end.

Definition build_data (recs : list rec) (h w : nat) (dtype : string)
  (genders ages : list string) : M darray :=
  exec log LogBuilding;
  let mat := tile_matrix recs in
  do tiles <- build_tiles mat h w dtype genders ages;
  do data <- da_stack tiles;
  exec log (LogShape (shape data));
  ret data.

(** ** Steps 1 to 6 of [main] *)

(** What step 6 hands to [xr.Dataset]: the lazy array, the coordinate
    vectors and the year attribute. *)
Record dataset : Type := mkDataset {
  ds_data : darray;
  ds_x : list float;
  ds_y : list float;
  ds_year : string
}.

(** Steps 1 to 6.  [listdir] is [os.listdir(INPUT_FOLDER)], [fs] the
    folder's rasters, [YEAR_FILTER] the configured year ([None] or the
    empty string pick the latest year).  Every [sys.exit], every
    uncaught exception and every [log] of the script up to the call of
    [compute_coords] has its counterpart here, in the script's order. *)
Definition main (listdir : list string) (fs : folder)
  (YEAR_FILTER : option string) : M dataset :=
  exec log LogScanning;
  let files := filter (fun f => endswith (lower f) ".tif" = true) listdir in
  exec log (LogFound (length files));
  match files with
  | [] => sys_exit "❌ No TIFFs found"
  | _ =>
  let recs := parse_files files in
  match recs with
  | [] => sys_exit "No files matched regex"
  | _ =>
  let years := sorted_set (map year recs) in
  do yr <- match YEAR_FILTER with
           | Some (String c y) => ret (String c y)
           | _ => last_item years
           end;
  let recs := filter (fun r => year r = yr) recs in
  exec log (LogUsing yr (length recs));
  let genders := sorted_set (map gender recs) in
  do ages <- sorted_by_int (map age recs);
  exec log (LogGenders genders);
  exec log (LogAges ages);
  do r0 <- first_item recs;
  exec log (LogInspecting (filename r0));
  do s <- rio_open fs (filename r0);
  let h := height s in
  let w := width s in
  exec log (LogSample h w (dtype0 s));
  exec check_consistency fs h w (crs s) (transform s) recs;
  do data <- build_data recs h w (dtype0 s) genders ages;
  exec log LogCoords;
  do xy <- compute_coords64 (transform s) h w;
  ret (mkDataset data (fst xy) (snd xy) yr)
  end end.

End Main.

Arguments raster : clear implicits.
Arguments folder : clear implicits.

(** ** Vocabulary of the statements *)

(** The rasters of the examples: an EPSG code for the CRS, integer
    pixels. *)
Definition epsg_ne (c c' : nat) : bool := negb (c =? c')%nat.

(** The one warning the script can print. *)
Definition is_warning (ev : event) : bool :=
  match ev with
  | WarnRotated => true
  | _ => false
  end.

(** The one logged line that carries a file name. *)
Definition names_file (ev : event) (fn : string) : bool :=
  match ev with
  | LogInspecting b => String.eqb b fn
  | _ => false
  end.

(** Progress lines of the consistency check. *)
Definition is_progress (n : nat) (ev : event) : Prop :=
  ev = LogChecking \/ exists i, ev = LogChecked i n.

(** A tile has the reference geometry when none of the three tests of
    the check fires. *)
Definition same_geometry {CRS px : Type} (crs_ne : CRS -> CRS -> bool)
  (s : raster CRS px) (h w : nat) (c : CRS) (t : Affine float) : bool :=
  negb (crs_ne (crs s) c) && negb (transform_ne (transform s) t)
  && negb (shape_ne (height s, width s) (h, w)).

(** The property the check names for a tile: the first of the three
    tests that fires. *)
Definition mismatched_property {CRS px : Type} (crs_ne : CRS -> CRS -> bool)
  (s : raster CRS px) (h w : nat) (c : CRS) (t : Affine float) : string :=
  if crs_ne (crs s) c then "CRS"
  else if transform_ne (transform s) t then "Transform"
  else "Shape".

(** Some coefficient of the two transforms is not [==]. *)
Definition coefficient_differs (t u : Affine float) : Prop :=
  PrimFloat.eqb (tr_a t) (tr_a u) = false
  \/ PrimFloat.eqb (tr_b t) (tr_b u) = false
  \/ PrimFloat.eqb (tr_c t) (tr_c u) = false
  \/ PrimFloat.eqb (tr_d t) (tr_d u) = false
  \/ PrimFloat.eqb (tr_e t) (tr_e u) = false
  \/ PrimFloat.eqb (tr_f t) (tr_f u) = false.

(** The record's file opens and has the reference geometry. *)
Definition conforms {CRS px : Type} (crs_ne : CRS -> CRS -> bool)
  (fs : folder CRS px) (h w : nat) (c : CRS) (t : Affine float)
  (r : rec) : Prop :=
  exists s, fs (filename r) = Some s /\ same_geometry crs_ne s h w c t = true.

(** The record's file opens and one of the three tests fires. *)
Definition deviates {CRS px : Type} (crs_ne : CRS -> CRS -> bool)
  (fs : folder CRS px) (h w : nat) (c : CRS) (t : Affine float)
  (r : rec) : Prop :=
  exists s, fs (filename r) = Some s /\ same_geometry crs_ne s h w c t = false.

(** Two folders that show the same shape, CRS and transform for every
    name; pixel type, nodata value and pixels may differ. *)
Definition same_geometries {CRS px : Type} (fs fs' : folder CRS px) : Prop :=
  forall fn,
    match fs fn, fs' fn with
    | Some s, Some s' =>
        height s = height s' /\ width s = width s'
        /\ crs s = crs s' /\ transform s = transform s'
    | None, None => True
    | _, _ => False
    end.

(** What one round of the check loop logs. *)
Definition progress_line (n i : nat) : list event :=
  if (i mod 10 =? 0)%nat || (i =? n)%nat then [LogChecked i n] else [].

(** The array [tile] builds for one (gender, age) pair, without its
    log line. *)
Definition tile_array (mat : gmap (string * string) string) (h w : nat)
  (dtype : string) (g a : string) : darray :=
  match mat !! (g, a) with
  | Some (String c fn') =>
      Rechunk (FromDelayed (String c fn') [h; w] dtype) chunk1024
  | _ => Zeros [h; w] dtype chunk1024
  end.

(** The stacked grid: one stack of ages per gender. *)
Definition grid (mat : gmap (string * string) string) (h w : nat)
  (dtype : string) (genders ages : list string) : darray :=
  Stack (map (fun g => Stack (map (tile_array mat h w dtype g) ages)) genders).

(** Strictly monotone lists of floats, by IEEE [<]. *)
Fixpoint increasing64 (l : list float) : bool :=
  match l with
  | u :: (v :: _) as l' => PrimFloat.ltb u v && increasing64 l'
  | _ => true
  end.

Fixpoint decreasing64 (l : list float) : bool :=
  match l with
  | u :: (v :: _) as l' => PrimFloat.ltb v u && decreasing64 l'
  | _ => true
  end.

(** The pattern after the [year] group, and its last part. *)
Definition ext_re : re :=
  Cat (lit ".") (Cat (lit "t") (Cat (lit "i") (Cat (lit "f") Eos))).

Definition suffix_re : re := Cat (Opt (Cat sep (Plus Dot))) ext_re.

(** The continuation of a whole match: the groups found. *)
Definition found : string -> groups -> option groups := fun _ g => Some g.

(** A string of two decimal digits, as the pattern's [age] group. *)
Definition two_digits (a : string) : Prop :=
  String.length a = 2 /\ every is_digit a = true.

(** The "MISSING tile" lines of the two loops, gender by gender and age
    by age. *)
Definition missing_notices (mat : gmap (string * string) string)
  (genders ages : list string) : list event :=
  flat_map (fun g =>
    flat_map (fun a =>
      match mat !! (g, a) with
      | Some (String _ _) => []
      | _ => [LogMissing g a]
      end) ages) genders.

(** ** Sample folders *)

Definition north_up_grid : Affine float := (mkAffine 1 0 0 0 (-1) 2)%float.

Definition shifted_grid : Affine float := (mkAffine 1 0 1 0 (-1) 2)%float.

Definition tile_f32 : raster nat Z :=
  mkRaster 2 2 4326 north_up_grid "float32" None [[1; 2]; [3; 4]]%Z.

Definition tile_u8 : raster nat Z :=
  mkRaster 2 2 4326 north_up_grid "uint8" (Some 255%float) [[0; 0]; [0; 9]]%Z.

Definition tile_shifted : raster nat Z :=
  mkRaster 2 2 4326 shifted_grid "float32" None [[5; 6]; [7; 8]]%Z.

(** Every name opens as the same float32 tile. *)
Definition folder_uniform : folder nat Z := fun _ => Some tile_f32.

(** As [folder_uniform], but tcd_m_00_2025.tif is a uint8 tile with a
    nodata value. *)
Definition folder_mixed_dtype : folder nat Z :=
  fun fn => if String.eqb fn "tcd_m_00_2025.tif" then Some tile_u8
            else Some tile_f32.

(** As [folder_uniform], but tcd_m_00_2025.tif is shifted by one unit. *)
Definition folder_one_shifted : folder nat Z :=
  fun fn => if String.eqb fn "tcd_m_00_2025.tif" then Some tile_shifted
            else Some tile_f32.

Definition rec_f00 : rec := mkRec "tcd_f_00_2025.tif" "f" "00" "2025".

Definition rec_m00 : rec := mkRec "tcd_m_00_2025.tif" "m" "00" "2025".

Definition rec_f01 : rec := mkRec "tcd_f_01_2025.tif" "f" "01" "2025".

(** * Properties *)

(** ** Characters *)

Ltac by_char c :=
  destruct c as [[] [] [] [] [] [] [] []]; vm_compute;
  try reflexivity; try congruence; try tauto.

Lemma accepts_range_az (c : ascii) :
  accepts true (Range "a" "z") c = is_letter c.
Proof. by_char c. Qed.

Lemma accepts_digit (c : ascii) : accepts true Digit c = is_digit c.
Proof. by_char c. Qed.

Lemma accepts_sep (c : ascii) : accepts true (OneOf "_-") c = is_sep c.
Proof. by_char c. Qed.

Lemma accepts_fmt (c : ascii) : accepts true (OneOf "fmt") c = is_fmt c.
Proof. by_char c. Qed.

Lemma accepts_dot (c : ascii) : accepts true Dot c = not_newline c.
Proof. by_char c. Qed.

Lemma accepts_own_lower (c : ascii) :
  accepts true (OneOf (String (chr_lower c) "")) c = true.
Proof. by_char c. Qed.

(** ** Strings *)

Lemma app_nil_str (s : string) : "" +:+ s = s.
Proof. reflexivity. Qed.

Lemma app_cons_str (c : ascii) (p s : string) :
  String c p +:+ s = String c (p +:+ s).
Proof. reflexivity. Qed.

Lemma length_app (p s : string) :
  String.length (p +:+ s) = String.length p + String.length s.
Proof.
  induction p as [|c p IH]; [reflexivity|].
  rewrite app_cons_str. simpl. now rewrite IH.
Qed.

Lemma substring_prefix (p s : string) :
  substring 0 (String.length p) (p +:+ s) = p.
Proof.
  induction p as [|c p IH].
  - rewrite app_nil_str. destruct s; reflexivity.
  - rewrite app_cons_str. simpl. now rewrite IH.
Qed.

Lemma consumed_app (p s : string) : consumed (p +:+ s) s = p.
Proof.
  unfold consumed. rewrite length_app.
  replace (String.length p + String.length s - String.length s)
    with (String.length p) by lia.
  apply substring_prefix.
Qed.

Lemma consumed1 (a : ascii) (s : string) :
  consumed (String a s) s = String a "".
Proof. exact (consumed_app (String a "") s). Qed.

Lemma consumed2 (a b : ascii) (s : string) :
  consumed (String a (String b s)) s = String a (String b "").
Proof. exact (consumed_app (String a (String b "")) s). Qed.

Lemma consumed3 (a b c : ascii) (s : string) :
  consumed (String a (String b (String c s))) s
  = String a (String b (String c "")).
Proof. exact (consumed_app (String a (String b (String c ""))) s). Qed.

Lemma consumed4 (a b c d : ascii) (s : string) :
  consumed (String a (String b (String c (String d s)))) s
  = String a (String b (String c (String d ""))).
Proof.
  exact (consumed_app (String a (String b (String c (String d "")))) s).
Qed.

Lemma accepts_lit (c d : ascii) :
  chr_lower c = d -> accepts true (OneOf (String d "")) c = true.
Proof. intros <-. apply accepts_own_lower. Qed.

Lemma run_ext_ok (ext : string) (g : groups) :
  lower ext = ".tif" -> run true ext_re ext g found = Some g.
Proof.
  intros H.
  destruct ext as [|e0 [|e1 [|e2 [|e3 [|e4 ext]]]]]; try discriminate H.
  injection H as H0 H1 H2 H3.
  unfold ext_re, lit. cbn [run].
  rewrite (accepts_lit e0 _ H0), (accepts_lit e1 _ H1),
    (accepts_lit e2 _ H2), (accepts_lit e3 _ H3).
  reflexivity.
Qed.

Lemma run_ext_range (s : string) (g : groups) :
  run true ext_re s g found = None \/ run true ext_re s g found = Some g.
Proof.
  unfold ext_re, lit, found. cbn [run].
  repeat match goal with
         | |- context [match ?x with EmptyString => _ | String _ _ => _ end] =>
             destruct x
         | |- context [if ?b then _ else _] => destruct b
         end; auto.
Qed.

Section Plus.
Variables (cl : cset) (k : string -> option groups) (g : groups).
Hypothesis k_range : forall s, k s = None \/ k s = Some g.

Lemma plus_range (s : string) :
  plus true cl s k = None \/ plus true cl s k = Some g.
Proof.
  induction s as [|c s IH]; cbn [plus]; [now left|].
  destruct (accepts true cl c); [|now left].
  destruct IH as [-> | ->]; [apply k_range | now right].
Qed.

Lemma plus_some (q rest : string) :
  q <> "" -> every (accepts true cl) q = true -> k rest = Some g ->
  plus true cl (q +:+ rest) k = Some g.
Proof.
  induction q as [|c q IH]; [congruence|].
  intros _ Hq Hk. cbn [every] in Hq. apply andb_true_iff in Hq as [Hc Hq].
  rewrite app_cons_str. cbn [plus]. rewrite Hc.
  destruct q as [|c' q'].
  - rewrite app_nil_str.
    destruct (plus_range rest) as [-> | ->]; [exact Hk | reflexivity].
  - rewrite IH; [reflexivity | discriminate | exact Hq | exact Hk].
Qed.
End Plus.

Lemma every_ext (p q : ascii -> bool) (s : string) :
  (forall c, p c = q c) -> every p s = every q s.
Proof.
  intros H. induction s as [|c s IH]; cbn [every]; [reflexivity|].
  now rewrite H, IH.
Qed.

Lemma run_qualifier_range (s : string) (g : groups) :
  let r := run true (Cat sep (Plus Dot)) s g
             (fun s' g' => run true ext_re s' g' found) in
  r = None \/ r = Some g.
Proof.
  unfold sep. cbn [run]. destruct s as [|c s]; [now left|].
  destruct (accepts true (OneOf "_-") c); [|now left].
  apply plus_range. intros s'. apply run_ext_range.
Qed.

Lemma run_suffix_ok (q : option (ascii * string)) (ext : string) (g : groups) :
  qualifier_ok q = true -> lower ext = ".tif" ->
  run true suffix_re (qualifier_text q +:+ ext) g found = Some g.
Proof.
  intros Hq Hext. unfold suffix_re.
  change (run true (Cat (Opt (Cat sep (Plus Dot))) ext_re)
            (qualifier_text q +:+ ext) g found)
    with (match run true (Cat sep (Plus Dot)) (qualifier_text q +:+ ext) g
                  (fun s' g' => run true ext_re s' g' found) with
          | Some g' => Some g'
          | None => run true ext_re (qualifier_text q +:+ ext) g found
          end).
  destruct q as [[s4 t]|]; cbn [qualifier_text qualifier_ok] in *.
  - apply andb_true_iff in Hq as [Hq Ht].
    apply andb_true_iff in Hq as [Hs Hne].
    rewrite app_cons_str. unfold sep at 1. cbn [run].
    rewrite accepts_sep, Hs.
    rewrite (plus_some Dot _ g); [reflexivity | | | |].
    + intros s'. apply run_ext_range.
    + intros ->. discriminate Hne.
    + rewrite (every_ext _ not_newline); [exact Ht | apply accepts_dot].
    + now apply run_ext_ok.
  - rewrite app_nil_str.
    destruct (run_qualifier_range ext g) as [-> | ->];
      [now apply run_ext_ok | reflexivity].
Qed.

(** The groups of a name of the documented form. *)
Lemma run_prefix (c1 c2 c3 s1 x s2 d1 d2 s3 y1 y2 y3 y4 : ascii) (rest : string) :
  is_letter c1 = true -> is_letter c2 = true -> is_letter c3 = true ->
  is_sep s1 = true -> is_fmt x = true -> is_sep s2 = true ->
  is_digit d1 = true -> is_digit d2 = true -> is_sep s3 = true ->
  is_digit y1 = true -> is_digit y2 = true -> is_digit y3 = true ->
  is_digit y4 = true ->
  STRICT_REGEX_match
    (String c1 (String c2 (String c3 (String s1 (String x (String s2
      (String d1 (String d2 (String s3
        (String y1 (String y2 (String y3 (String y4 rest)))))))))))))
  = run true suffix_re rest
      [("year", String y1 (String y2 (String y3 (String y4 "")))) ;
       ("age", String d1 (String d2 ""));
       ("gender", String x "");
       ("country", String c1 (String c2 (String c3 "")))]
      found.
Proof.
  intros. unfold STRICT_REGEX_match, rmatch, STRICT_REGEX, sep.
  cbn [run].
  rewrite !accepts_range_az, !accepts_sep, !accepts_digit, !accepts_fmt.
  repeat match goal with H : _ = true |- _ => rewrite H; clear H end.
  rewrite consumed1, consumed2, consumed3, consumed4.
  reflexivity.
Qed.

Ltac chars3 s := destruct s as [|? [|? [|? [|? ?]]]]; try discriminate.
Ltac chars2 s := destruct s as [|? [|? [|? ?]]]; try discriminate.
Ltac chars4 s := destruct s as [|? [|? [|? [|? [|? ?]]]]]; try discriminate.

Ltac split_every :=
  repeat match goal with
         | H : every _ _ = true |- _ => progress cbn [every] in H
         end;
  repeat match goal with
         | H : _ && _ = true |- _ => apply andb_true_iff in H as [? ?]
         end.

Ltac open_form H :=
  destruct H as [[Hlc Hc] Hx [Hla Ha] [Hly Hy] (Hs1 & Hs2 & Hs3) Hq Hext].

Lemma match_tile_name (country : string) (axis1 : ascii) (age year : string)
  (s1 s2 s3 : ascii) (q : option (ascii * string)) (ext : string) :
  name_form country axis1 age year s1 s2 s3 q ext ->
  is_fmt axis1 = true ->
  STRICT_REGEX_match (tile_name country axis1 age year s1 s2 s3 q ext)
  = Some [("year", year); ("age", age); ("gender", String axis1 "");
          ("country", country)].
Proof.
  intros H Hfmt. open_form H.
  chars3 country. chars2 age. chars4 year. split_every.
  unfold tile_name. rewrite !app_cons_str, !app_nil_str.
  rewrite run_prefix by assumption.
  now apply run_suffix_ok.
Qed.

Lemma no_match_other_letter (country : string) (axis1 : ascii) (age year : string)
  (s1 s2 s3 : ascii) (q : option (ascii * string)) (ext : string) :
  name_form country axis1 age year s1 s2 s3 q ext ->
  is_fmt axis1 = false ->
  STRICT_REGEX_match (tile_name country axis1 age year s1 s2 s3 q ext) = None.
Proof.
  intros H Hfmt. open_form H.
  chars3 country. split_every.
  unfold tile_name. rewrite !app_cons_str, !app_nil_str.
  unfold STRICT_REGEX_match, rmatch, STRICT_REGEX, sep. cbn [run].
  rewrite !accepts_range_az, !accepts_sep, !accepts_fmt.
  repeat match goal with H : _ = true |- _ => rewrite H; clear H end.
  now rewrite Hfmt.
Qed.

(** C3 (as amended): a name of the documented form, whose qualifier, if
    any, has a text that is not empty and holds no line feed, is parsed
    into a record exactly when its axis-1 letter is f, m or t in either
    case; other letters are refused. *)
Theorem parse_accepts_fmt_only (country : string) (axis1 : ascii)
  (age year : string) (s1 s2 s3 : ascii) (q : option (ascii * string))
  (ext : string) :
  name_form country axis1 age year s1 s2 s3 q ext ->
  (is_Some (parse (tile_name country axis1 age year s1 s2 s3 q ext))
   <-> is_fmt axis1 = true).
Proof.
  intros H. unfold parse. destruct (is_fmt axis1) eqn:Hfmt.
  - rewrite (match_tile_name _ _ _ _ _ _ _ _ _ H Hfmt). cbn.
    split; [reflexivity | intros _; eexists; reflexivity].
  - rewrite (no_match_other_letter _ _ _ _ _ _ _ _ _ H Hfmt).
    split; [intros [r Hr]; discriminate Hr | discriminate].
Qed.

Lemma parse_accepts_fmt_only_witness :
  name_form "tcd" "f" "00" "2025" "_" "_" "_" (Some ("_"%char, "CN_100m")) ".tif"
  /\ (is_Some (parse (tile_name "tcd" "f" "00" "2025" "_" "_" "_"
                        (Some ("_"%char, "CN_100m")) ".tif"))
      <-> is_fmt "f" = true).
Proof.
  assert (F : name_form "tcd" "f" "00" "2025" "_" "_" "_"
                (Some ("_"%char, "CN_100m")) ".tif")
    by (constructor; vm_compute; auto).
  split; [exact F | exact (parse_accepts_fmt_only _ _ _ _ _ _ _ _ _ F)].
Defined.

(** C3 as stated fails: [tcd_x_00_2025.tif] has the documented form, with
    the letter x on axis 1, and is not parsed. *)
Lemma parse_refuses_letter_x :
  ~ (forall country axis1 age year s1 s2 s3 q ext,
        name_form country axis1 age year s1 s2 s3 q ext ->
        is_Some (parse (tile_name country axis1 age year s1 s2 s3 q ext))).
Proof.
  intros H.
  assert (F : name_form "tcd" "x" "00" "2025" "_" "_" "_" None ".tif")
    by (constructor; vm_compute; auto).
  destruct (H _ _ _ _ _ _ _ _ _ F) as [r Hr].
  vm_compute in Hr. discriminate Hr.
Qed.

(** C5 (as amended): for a name of the documented form whose axis-1
    letter is f, m or t in either case, the match's groups are the four
    parts as written, and the record keeps the file name, the axis-1
    letter in lower case, and the age and year digits as written; the
    country is a group of the match but no field of the record. *)
Theorem parse_round_trip (country : string) (axis1 : ascii)
  (age year : string) (s1 s2 s3 : ascii) (q : option (ascii * string))
  (ext : string) :
  name_form country axis1 age year s1 s2 s3 q ext ->
  is_fmt axis1 = true ->
  let fn := tile_name country axis1 age year s1 s2 s3 q ext in
  parse fn = Some (mkRec fn (String (chr_lower axis1) "") age year)
  /\ exists m, STRICT_REGEX_match fn = Some m
               /\ group "country" m = Some country
               /\ group "gender" m = Some (String axis1 "")
               /\ group "age" m = Some age
               /\ group "year" m = Some year.
Proof.
  intros H Hfmt fn. subst fn. unfold parse.
  rewrite (match_tile_name _ _ _ _ _ _ _ _ _ H Hfmt). cbn.
  split; [reflexivity|]. eexists. split; [reflexivity|]. now cbn.
Qed.

Lemma parse_round_trip_witness :
  name_form "TCD" "M" "05" "2020" "-" "-" "-" None ".TIF"
  /\ is_fmt "M" = true
  /\ parse "TCD-M-05-2020.TIF" = Some (mkRec "TCD-M-05-2020.TIF" "m" "05" "2020").
Proof.
  assert (F : name_form "TCD" "M" "05" "2020" "-" "-" "-" None ".TIF")
    by (constructor; vm_compute; auto).
  split; [exact F|]. split; [reflexivity|].
  exact (proj1 (parse_round_trip _ _ _ _ _ _ _ _ _ F eq_refl)).
Defined.

(** C5 as stated fails: the tuple (abc, q, 15, 1999) has one letter on
    axis 1, and the name built from it is not parsed at all. *)
Lemma round_trip_fails_letter_q :
  ~ (forall country axis1 ag yr s1 s2 s3 q ext,
        name_form country axis1 ag yr s1 s2 s3 q ext ->
        exists r,
          parse (tile_name country axis1 ag yr s1 s2 s3 q ext) = Some r
          /\ gender r = String (chr_lower axis1) ""
          /\ age r = ag /\ year r = yr).
Proof.
  intros H.
  assert (F : name_form "abc" "q" "15" "1999" "-" "-" "-" None ".tif")
    by (constructor; vm_compute; auto).
  destruct (H _ _ _ _ _ _ _ _ _ F) as (r & Hr & _).
  vm_compute in Hr. discriminate Hr.
Qed.

(** ** Coordinates *)

Lemma lookup_map_arange {A : Type} (f : nat -> A) (n i : nat) :
  i < n -> map f (np_arange n) !! i = Some (f i).
Proof.
  intros Hi. change (map f (np_arange n)) with (f <$> seq 0 n).
  rewrite list_lookup_fmap, lookup_seq_lt by exact Hi. reflexivity.
Qed.

Lemma length_map_arange {A : Type} (f : nat -> A) (n : nat) :
  length (map f (np_arange n)) = n.
Proof. unfold np_arange. now rewrite length_map, length_seq. Qed.

Section CoordsFacts.
Context {F : Type}.
Variables (add mul : F -> F -> F) (of_nat : nat -> F) (half : F).
Variables (fabs : F -> F) (lt : F -> F -> bool) (eps : F).

Let coords := compute_coords add mul of_nat half fabs lt eps.
Let cen := centre add mul of_nat half.

(** Whatever the arithmetic, the result is the two vectors of the
    formula, after one warning or none. *)
Lemma compute_coords_eq (t : Affine F) (h w : nat) :
  coords t h w
  = (if north_up fabs lt eps t then [] else [WarnRotated],
     Ok (map (cen (tr_c t) (tr_a t) (tr_b t)) (np_arange w),
         map (cen (tr_f t) (tr_e t) (tr_d t)) (np_arange h))).
Proof.
  unfold coords, compute_coords.
  destruct (north_up fabs lt eps t); reflexivity.
Qed.
End CoordsFacts.

Lemma centreQ_step (c a b : Q) (i : nat) :
  (centre Qplus Qmult (fun i => inject_Z (Z.of_nat i)) (1 # 2) c a b (S i)
   - centre Qplus Qmult (fun i => inject_Z (Z.of_nat i)) (1 # 2) c a b i
   == a)%Q.
Proof.
  unfold centre. rewrite Nat2Z.inj_succ. unfold Z.succ.
  rewrite inject_Z_plus. ring.
Qed.

(** C4 (as amended): the coordinate deriver returns an x-vector of length
    cols with x_i = c + (i+0.5)*a + 0.5*b and a y-vector of length rows
    with y_j = f + (j+0.5)*e + 0.5*d, in binary64 arithmetic; read in
    exact arithmetic, neighbouring x-coordinates differ by a for every b
    and d, so the sequence is strictly increasing when a > 0, strictly
    decreasing when a < 0 and constant when a = 0. *)
Theorem compute_coords_formula :
  (forall (t : Affine float) (h w : nat),
      exists l x y,
        compute_coords64 t h w = (l, Ok (x, y))
        /\ length x = w /\ length y = h
        /\ (forall i, i < w ->
              x !! i = Some (tr_c t + (float_of_nat i + 0.5) * tr_a t
                             + 0.5 * tr_b t)%float)
        /\ (forall j, j < h ->
              y !! j = Some (tr_f t + (float_of_nat j + 0.5) * tr_e t
                             + 0.5 * tr_d t)%float))
  /\ (forall (t : Affine Q) (h w : nat),
         exists l x y,
           compute_coordsQ t h w = (l, Ok (x, y))
           /\ length x = w
           /\ forall i xi xj, x !! i = Some xi -> x !! S i = Some xj ->
                (xj - xi == tr_a t)%Q
                /\ ((0 < tr_a t)%Q -> (xi < xj)%Q)
                /\ ((tr_a t < 0)%Q -> (xj < xi)%Q)
                /\ ((tr_a t == 0)%Q -> (xj == xi)%Q)).
Proof.
  split.
  - intros t h w. unfold compute_coords64. rewrite compute_coords_eq.
    eexists _, _, _. split; [reflexivity|].
    rewrite !length_map_arange. repeat split.
    + intros i Hi. now rewrite lookup_map_arange.
    + intros j Hj. now rewrite lookup_map_arange.
  - intros t h w. unfold compute_coordsQ. rewrite compute_coords_eq.
    eexists _, _, _. split; [reflexivity|].
    rewrite length_map_arange. split; [reflexivity|].
    intros i xi xj Hi Hj.
    assert (Hlt : S i < w).
    { apply lookup_lt_Some in Hj. now rewrite length_map_arange in Hj. }
    rewrite lookup_map_arange in Hi by lia.
    rewrite lookup_map_arange in Hj by lia.
    injection Hi as <-. injection Hj as <-.
    pose proof (centreQ_step (tr_c t) (tr_a t) (tr_b t) i) as Hstep.
    revert Hstep. generalize (tr_a t). intros a.
    match goal with
    | |- (?u - ?v == _)%Q -> _ => generalize u, v
    end.
    intros u v Hstep. repeat split; intros; lra.
Qed.

Lemma compute_coords_formula_witness :
  (exists l x y,
      compute_coords64 (mkAffine 1 0 0 0 (-1) 2)%float 2 2 = (l, Ok (x, y))
      /\ x !! 1 = Some 1.5%float /\ y !! 0 = Some 1.5%float)
  /\ (exists l x y,
         compute_coordsQ (mkAffine 2 0 10 0 (-2) 0)%Q 1 2 = (l, Ok (x, y))
         /\ x = [44 # 4; 52 # 4]%Q /\ (44 # 4 < 52 # 4)%Q).
Proof.
  destruct compute_coords_formula as [H64 HQ]. split.
  - destruct (H64 (mkAffine 1 0 0 0 (-1) 2)%float 2 2)
      as (l & x & y & E & _ & _ & Hx & Hy).
    exists l, x, y. split; [exact E|]. split.
    + exact (Hx 1 ltac:(lia)).
    + exact (Hy 0 ltac:(lia)).
  - destruct (HQ (mkAffine 2 0 10 0 (-2) 0)%Q 1 2) as (l & x & y & E & _ & Hs).
    exists l, x, y. split; [exact E|].
    vm_compute in E. injection E as _ Ex _. subst x. split; [reflexivity|].
    destruct (Hs 0 (44 # 4)%Q (52 # 4)%Q eq_refl eq_refl) as (_ & Hinc & _).
    apply Hinc. reflexivity.
Defined.

(** C4 as stated fails: with a = 0 (and b = d = 0) both x-coordinates of
    a two-column raster are c, neither increasing nor decreasing. *)
Lemma coords_constant_when_a_zero :
  ~ (forall (t : Affine float) (h w : nat),
        0 < h -> 0 < w -> tr_b t = 0%float -> tr_d t = 0%float ->
        exists l x y,
          compute_coords64 t h w = (l, Ok (x, y))
          /\ (increasing64 x = true
              \/ (PrimFloat.ltb (tr_a t) 0 = true /\ decreasing64 x = true))).
Proof.
  intros H.
  destruct (H (mkAffine 0 0 5 0 (-1) 0)%float 1 2
              ltac:(lia) ltac:(lia) eq_refl eq_refl)
    as (l & x & y & E & Hx).
  vm_compute in E. injection E as _ Ex _. subst x.
  vm_compute in Hx. destruct Hx as [Hx | [Hx _]]; discriminate Hx.
Qed.

(** In binary64 a positive step can also be lost to rounding: at
    c = 2^60 a step of 1 leaves both pixel centres at c. *)
Example coords_step_absorbed :
  compute_coords64 (mkAffine 1 0 0x1p60 0 (-1) 0)%float 1 2
  = ([], Ok ([0x1p60; 0x1p60]%float, [-0.5]%float)).
Proof. vm_compute. reflexivity. Qed.

(** C8 (as amended): the coordinate deriver applies the same pixel-centre
    formula to every transform and emits the rotation/shear warning
    exactly once when |b| or |d| is not below the tolerance 1e-12, and
    not at all when both are below it, so in particular not when
    b = d = 0. *)
Theorem warning_by_tolerance (t : Affine float) (h w : nat) :
  exists l,
    compute_coords64 t h w
    = (l, Ok (map (fun i => tr_c t + (float_of_nat i + 0.5) * tr_a t
                            + 0.5 * tr_b t)%float (np_arange w),
              map (fun j => tr_f t + (float_of_nat j + 0.5) * tr_e t
                            + 0.5 * tr_d t)%float (np_arange h)))
    /\ (PrimFloat.ltb (abs (tr_b t)) eps64 = false
        \/ PrimFloat.ltb (abs (tr_d t)) eps64 = false ->
        l = [WarnRotated])
    /\ (PrimFloat.ltb (abs (tr_b t)) eps64 = true ->
        PrimFloat.ltb (abs (tr_d t)) eps64 = true ->
        l = [])
    /\ (tr_b t = 0%float -> tr_d t = 0%float -> l = []).
Proof.
  unfold compute_coords64. rewrite compute_coords_eq.
  eexists. split; [reflexivity|]. unfold north_up.
  repeat split.
  - intros [-> | ->]; [reflexivity|].
    now destruct (PrimFloat.ltb (abs (tr_b t)) eps64).
  - now intros -> ->.
  - now intros -> ->.
Qed.

Lemma warning_by_tolerance_witness :
  compute_coords64 (mkAffine 1 0.5 0 0 (-1) 0)%float 1 1
  = ([WarnRotated], Ok ([0.75]%float, [-0.5]%float)).
Proof.
  destruct (warning_by_tolerance (mkAffine 1 0.5 0 0 (-1) 0)%float 1 1)
    as (l & E & Hwarn & _).
  rewrite (Hwarn (or_introl eq_refl)) in E. exact E.
Defined.

(** C8 as stated fails: a shear of b = 2^-50, which is not zero but below
    the tolerance, draws no warning. *)
Lemma small_shear_not_warned :
  ~ (forall (t : Affine float) (h w : nat),
        PrimFloat.eqb (tr_b t) 0 = false ->
        exists x y, compute_coords64 t h w = ([WarnRotated], Ok (x, y))).
Proof.
  intros H.
  destruct (H (mkAffine 1 0x1p-50 0 0 (-1) 0)%float 1 1 eq_refl)
    as (x & y & E).
  vm_compute in E. discriminate E.
Qed.

(** ** The consistency check *)

Section CheckFacts.
Context {CRS px : Type}.
Variable crs_ne : CRS -> CRS -> bool.
Variable fs : folder CRS px.
Variables (h w : nat) (c : CRS) (t : Affine float).

Let check_from' := check_from crs_ne fs h w c t.

Lemma progress_line_progress (n i : nat) :
  Forall (is_progress n) (progress_line n i).
Proof.
  unfold progress_line. destruct (_ || _); constructor; [|constructor].
  right. now exists i.
Qed.

Lemma check_from_conforming (n i : nat) (r : rec) (rs : list rec) :
  conforms crs_ne fs h w c t r ->
  check_from' n i (r :: rs)
  = (progress_line n i ++ fst (check_from' n (S i) rs),
     snd (check_from' n (S i) rs)).
Proof.
  intros (s & Hs & Hg). unfold same_geometry in Hg.
  apply andb_true_iff in Hg as [Hg H3]. apply andb_true_iff in Hg as [H1 H2].
  apply negb_true_iff in H1, H2, H3.
  unfold check_from'. cbn [check_from]. unfold rio_open. rewrite Hs.
  cbn [ret bind]. rewrite H1, H2, H3. unfold progress_line.
  destruct (check_from crs_ne fs h w c t n (S i) rs) as [l res].
  destruct (_ || _); reflexivity.
Qed.

Lemma check_from_deviating (n i : nat) (r : rec) (rs : list rec)
  (s : raster CRS px) :
  fs (filename r) = Some s -> same_geometry crs_ne s h w c t = false ->
  check_from' n i (r :: rs)
  = ([], Exit (mismatched_property crs_ne s h w c t +:+ " mismatch "
               +:+ filename r)).
Proof.
  intros Hs Hg. unfold same_geometry in Hg. unfold mismatched_property.
  unfold check_from'. cbn [check_from]. unfold rio_open. rewrite Hs.
  cbn [ret bind].
  destruct (crs_ne (crs s) c); [reflexivity|].
  destruct (transform_ne (transform s) t); [reflexivity|].
  destruct (shape_ne (height s, width s) (h, w)); [reflexivity|].
  discriminate Hg.
Qed.

Lemma check_from_all (n : nat) (rs : list rec) :
  Forall (conforms crs_ne fs h w c t) rs ->
  forall i, exists l,
    check_from' n i rs = (l, Ok tt) /\ Forall (is_progress n) l.
Proof.
  induction 1 as [|r rs Hr _ IH]; intros i.
  - exists []. split; [reflexivity | constructor].
  - destruct (IH (S i)) as (l & E & Hl).
    exists (progress_line n i ++ l).
    rewrite (check_from_conforming n i r rs Hr), E. split; [reflexivity|].
    apply Forall_app. split; [apply progress_line_progress | exact Hl].
Qed.

Lemma check_from_first (n : nat) (pre : list rec) (r : rec) (post : list rec)
  (s : raster CRS px) :
  Forall (conforms crs_ne fs h w c t) pre ->
  fs (filename r) = Some s -> same_geometry crs_ne s h w c t = false ->
  forall i, exists l,
    check_from' n i (pre ++ r :: post)
    = (l, Exit (mismatched_property crs_ne s h w c t +:+ " mismatch "
                +:+ filename r))
    /\ Forall (is_progress n) l.
Proof.
  intros Hpre Hs Hg. induction Hpre as [|r' pre Hr' _ IH]; intros i.
  - exists []. split; [|constructor].
    exact (check_from_deviating n i r post s Hs Hg).
  - destruct (IH (S i)) as (l & E & Hl).
    exists (progress_line n i ++ l). cbn [app].
    rewrite (check_from_conforming n i r' _ Hr'), E. split; [reflexivity|].
    apply Forall_app. split; [apply progress_line_progress | exact Hl].
Qed.

Lemma check_consistency_eq (recs : list rec) :
  check_consistency crs_ne fs h w c t recs
  = (LogChecking :: fst (check_from' (length recs) 1 recs),
     snd (check_from' (length recs) 1 recs)).
Proof.
  unfold check_consistency, check_from'. cbn [log bind].
  destruct (check_from _ _ _ _ _ _ _ _ _) as [l res]. reflexivity.
Qed.
End CheckFacts.

Section CheckClaims.
Context {CRS px : Type}.
Variable crs_ne : CRS -> CRS -> bool.

Lemma coefficient_differs_ne (t u : Affine float) :
  coefficient_differs t u -> transform_ne t u = true.
Proof.
  unfold coefficient_differs, transform_ne.
  intros H. apply negb_true_iff.
  destruct H as [H | [H | [H | [H | [H | H]]]]]; rewrite H;
    rewrite ?andb_false_r; reflexivity.
Qed.

Lemma shape_differs_ne (hw hw' : nat * nat) : hw <> hw' -> shape_ne hw hw' = true.
Proof.
  destruct hw as [a b], hw' as [a' b']. intros H.
  unfold shape_ne. cbn [fst snd]. apply negb_true_iff.
  destruct (Nat.eqb_spec a a') as [-> |]; [|reflexivity].
  destruct (Nat.eqb_spec b b') as [-> |]; [|reflexivity].
  now destruct H.
Qed.

Lemma differing_tile_deviates (s : raster CRS px) (h w : nat) (c : CRS)
  (t : Affine float) :
  crs_ne (crs s) c = true \/ coefficient_differs (transform s) t
  \/ (height s, width s) <> (h, w) ->
  same_geometry crs_ne s h w c t = false.
Proof.
  unfold same_geometry. intros [H | [H | H]].
  - now rewrite H.
  - rewrite (coefficient_differs_ne _ _ H). cbn. now rewrite andb_false_r.
  - rewrite (shape_differs_ne _ _ H). cbn. now rewrite andb_false_r.
Qed.

Lemma named_property_fires (s : raster CRS px) (h w : nat) (c : CRS)
  (t : Affine float) :
  same_geometry crs_ne s h w c t = false ->
  let p := mismatched_property crs_ne s h w c t in
  (p = "CRS" /\ crs_ne (crs s) c = true)
  \/ (p = "Transform" /\ transform_ne (transform s) t = true)
  \/ (p = "Shape" /\ shape_ne (height s, width s) (h, w) = true).
Proof.
  unfold same_geometry, mismatched_property. intros H.
  destruct (crs_ne (crs s) c); [now left|].
  destruct (transform_ne (transform s) t); [right; now left|].
  destruct (shape_ne (height s, width s) (h, w)); [right; now right|].
  discriminate H.
Qed.

(** C2: when a tile differs from the reference in CRS, in a coefficient
    of the transform or in shape, the check stops the whole run at the
    first such tile with [sys.exit], and the message names a property
    that does differ and the tile's file; when every tile matches, the
    check ends normally, having logged progress lines only. *)
Theorem geometry_check_aborts_or_passes (fs : folder CRS px) (h w : nat)
  (c : CRS) (t : Affine float) (recs : list rec) :
  (forall pre r post s,
      recs = pre ++ r :: post ->
      Forall (conforms crs_ne fs h w c t) pre ->
      fs (filename r) = Some s ->
      crs_ne (crs s) c = true \/ coefficient_differs (transform s) t
      \/ (height s, width s) <> (h, w) ->
      let p := mismatched_property crs_ne s h w c t in
      ((p = "CRS" /\ crs_ne (crs s) c = true)
       \/ (p = "Transform" /\ transform_ne (transform s) t = true)
       \/ (p = "Shape" /\ shape_ne (height s, width s) (h, w) = true))
      /\ exists l,
          Forall (is_progress (length recs)) l
          /\ forall (B : Type) (k : unit -> M B),
              bind (check_consistency crs_ne fs h w c t recs) k
              = (l, Exit (p +:+ " mismatch " +:+ filename r)))
  /\ (Forall (conforms crs_ne fs h w c t) recs ->
      exists l,
        check_consistency crs_ne fs h w c t recs = (l, Ok tt)
        /\ Forall (is_progress (length recs)) l).
Proof.
  split.
  - intros pre r post s -> Hpre Hs Hdiff p.
    pose proof (differing_tile_deviates s h w c t Hdiff) as Hg.
    split; [exact (named_property_fires s h w c t Hg)|].
    destruct (check_from_first crs_ne fs h w c t
                (length (pre ++ r :: post)) pre r post s Hpre Hs Hg 1)
      as (l & E & Hl).
    exists (LogChecking :: l). split.
    + constructor; [now left | exact Hl].
    + intros B k. rewrite check_consistency_eq, E. reflexivity.
  - intros Hall.
    destruct (check_from_all crs_ne fs h w c t (length recs) recs Hall 1)
      as (l & E & Hl).
    exists (LogChecking :: l). rewrite check_consistency_eq, E.
    split; [reflexivity|]. constructor; [now left | exact Hl].
Qed.
End CheckClaims.

Lemma geometry_check_aborts_or_passes_witness :
  (forall (B : Type) (k : unit -> M B),
      bind (check_consistency epsg_ne folder_one_shifted 2 2 4326
              north_up_grid [rec_f00; rec_m00; rec_f01]) k
      = ([LogChecking], Exit "Transform mismatch tcd_m_00_2025.tif"))
  /\ check_consistency epsg_ne folder_uniform 2 2 4326 north_up_grid
       [rec_f00; rec_m00; rec_f01]
     = ([LogChecking; LogChecked 3 3], Ok tt).
Proof.
  destruct (geometry_check_aborts_or_passes epsg_ne folder_one_shifted 2 2
              4326 north_up_grid [rec_f00; rec_m00; rec_f01]) as [Hbad _].
  destruct (geometry_check_aborts_or_passes epsg_ne folder_uniform 2 2
              4326 north_up_grid [rec_f00; rec_m00; rec_f01]) as [_ Hgood].
  split.
  - assert (Hpre : Forall (conforms epsg_ne folder_one_shifted 2 2 4326
                             north_up_grid) [rec_f00]).
    { constructor; [|constructor]. exists tile_f32. split; reflexivity. }
    destruct (Hbad [rec_f00] rec_m00 [rec_f01] tile_shifted eq_refl Hpre
                eq_refl (or_intror (or_introl
                   (or_intror (or_intror (or_introl eq_refl))))))
      as (_ & l & _ & E).
    intros B k. rewrite (E B k).
    specialize (E B k). vm_compute in E. injection E as <-. reflexivity.
  - assert (Hall : Forall (conforms epsg_ne folder_uniform 2 2 4326
                             north_up_grid) [rec_f00; rec_m00; rec_f01]).
    { repeat constructor; exists tile_f32; split; reflexivity. }
    destruct (Hgood Hall) as (l & E & _).
    rewrite E. vm_compute in E. injection E as <-. reflexivity.
Defined.

Section CheckIndependence.
Context {CRS px : Type}.
Variable crs_ne : CRS -> CRS -> bool.
Variables (h w : nat) (c : CRS) (t : Affine float).

Lemma check_from_same_geometries (fs fs' : folder CRS px) :
  same_geometries fs fs' ->
  forall n rs i,
    check_from crs_ne fs' h w c t n i rs = check_from crs_ne fs h w c t n i rs.
Proof.
  intros Hsame n rs. induction rs as [|r rs IH]; intros i; [reflexivity|].
  cbn [check_from]. unfold rio_open. specialize (Hsame (filename r)).
  destruct (fs (filename r)) as [s|], (fs' (filename r)) as [s'|];
    try contradiction; [|reflexivity].
  destruct Hsame as (Hh & Hw & Hc & Ht).
  cbn [ret bind]. rewrite <- Hh, <- Hw, <- Hc, <- Ht.
  destruct (crs_ne (crs s) c); [reflexivity|].
  destruct (transform_ne (transform s) t); [reflexivity|].
  destruct (shape_ne (height s, width s) (h, w)); [reflexivity|].
  now rewrite IH.
Qed.

Lemma conform_or_first_deviation (fs : folder CRS px) (rs : list rec) :
  Forall (fun r => is_Some (fs (filename r))) rs ->
  Forall (conforms crs_ne fs h w c t) rs
  \/ exists pre r post s,
       rs = pre ++ r :: post
       /\ Forall (conforms crs_ne fs h w c t) pre
       /\ fs (filename r) = Some s
       /\ same_geometry crs_ne s h w c t = false.
Proof.
  induction 1 as [|r rs [s Hs] _ IH]; [left; constructor|].
  destruct (same_geometry crs_ne s h w c t) eqn:Hg.
  - assert (Hr : conforms crs_ne fs h w c t r) by (exists s; now split).
    destruct IH as [IH | (pre & r' & post & s' & -> & Hpre & Hs' & Hg')].
    + left. now constructor.
    + right. exists (r :: pre), r', post, s'. repeat split; try assumption.
      now constructor.
  - right. exists [], r, rs, s. repeat split; try assumption. constructor.
Qed.

(** C10: when every file opens, the check exits with an error exactly
    when some tile differs from the reference in CRS, transform or
    shape; its whole outcome is the same for any folder that shows the
    same shapes, CRSs and transforms, whatever the pixel types and nodata
    values are, so tiles that differ only in those pass. *)
Theorem check_ignores_dtype_and_nodata (fs : folder CRS px) (recs : list rec) :
  Forall (fun r => is_Some (fs (filename r))) recs ->
  ((exists l msg, check_consistency crs_ne fs h w c t recs = (l, Exit msg))
   <-> Exists (deviates crs_ne fs h w c t) recs)
  /\ (Forall (conforms crs_ne fs h w c t) recs ->
      exists l, check_consistency crs_ne fs h w c t recs = (l, Ok tt))
  /\ (forall fs', same_geometries fs fs' ->
        check_consistency crs_ne fs' h w c t recs
        = check_consistency crs_ne fs h w c t recs).
Proof.
  intros Hopen. split; [|split].
  - split.
    + intros (l & msg & E).
      destruct (conform_or_first_deviation fs recs Hopen)
        as [Hall | (pre & r & post & s & -> & _ & Hs & Hg)].
      * destruct (check_from_all crs_ne fs h w c t (length recs) recs Hall 1)
          as (l' & E' & _).
        rewrite check_consistency_eq, E' in E. discriminate E.
      * apply Exists_app. right. constructor. exists s. now split.
    + intros Hex.
      destruct (conform_or_first_deviation fs recs Hopen)
        as [Hall | (pre & r & post & s & -> & Hpre & Hs & Hg)].
      * exfalso. apply Exists_exists in Hex as (r & Hr & s & Hs & Hg).
        rewrite Forall_forall in Hall.
        destruct (Hall r Hr) as (s' & Hs' & Hg'). congruence.
      * destruct (check_from_first crs_ne fs h w c t
                    (length (pre ++ r :: post)) pre r post s Hpre Hs Hg 1)
          as (l & E & _).
        eexists _, _. rewrite check_consistency_eq, E. reflexivity.
  - intros Hall.
    destruct (check_from_all crs_ne fs h w c t (length recs) recs Hall 1)
      as (l & E & _).
    eexists. rewrite check_consistency_eq, E. reflexivity.
  - intros fs' Hsame. unfold check_consistency.
    now rewrite (check_from_same_geometries fs fs' Hsame).
Qed.
End CheckIndependence.

Lemma check_ignores_dtype_and_nodata_witness :
  dtype0 tile_u8 <> dtype0 tile_f32
  /\ nodata0 tile_u8 <> nodata0 tile_f32
  /\ check_consistency epsg_ne folder_mixed_dtype 2 2 4326 north_up_grid
       [rec_f00; rec_m00]
     = ([LogChecking; LogChecked 2 2], Ok tt).
Proof.
  split; [discriminate|]. split; [discriminate|].
  assert (Hopen : Forall (fun r => is_Some (folder_uniform (filename r)))
                    [rec_f00; rec_m00]).
  { repeat constructor; exists tile_f32; reflexivity. }
  destruct (check_ignores_dtype_and_nodata epsg_ne 2 2 4326 north_up_grid
              folder_uniform [rec_f00; rec_m00] Hopen) as (_ & _ & Hind).
  rewrite (Hind folder_mixed_dtype).
  - reflexivity.
  - intros fn. unfold folder_uniform, folder_mixed_dtype.
    destruct (String.eqb fn "tcd_m_00_2025.tif"); cbn; auto.
Defined.

(** ** The tile matrix and the lazy array *)

Lemma tile_matrix_snoc (recs : list rec) (r : rec) :
  tile_matrix (recs ++ [r])
  = <[(gender r, age r) := filename r]> (tile_matrix recs).
Proof. unfold tile_matrix. now rewrite foldl_app. Qed.

Lemma tile_matrix_last (pre : list rec) (r : rec) (post : list rec) :
  Forall (fun r' => (gender r', age r') <> (gender r, age r)) post ->
  tile_matrix (pre ++ r :: post) !! (gender r, age r) = Some (filename r).
Proof.
  induction post as [|r' post IH] using rev_ind; intros Hpost.
  - rewrite tile_matrix_snoc. apply lookup_insert_eq.
  - apply Forall_app in Hpost as [Hpost Hr'].
    apply Forall_inv in Hr'.
    replace (pre ++ r :: post ++ [r']) with ((pre ++ r :: post) ++ [r'])
      by (now rewrite <- app_assoc).
    rewrite tile_matrix_snoc, lookup_insert_ne by exact Hr'.
    now apply IH.
Qed.

Lemma tile_matrix_absent (recs : list rec) (g a : string) :
  Forall (fun r => (gender r, age r) <> (g, a)) recs ->
  tile_matrix recs !! (g, a) = None.
Proof.
  induction recs as [|r recs IH] using rev_ind; intros H.
  - apply lookup_empty.
  - apply Forall_app in H as [H Hr]. apply Forall_inv in Hr.
    rewrite tile_matrix_snoc, lookup_insert_ne by exact Hr. now apply IH.
Qed.

(** C9: when several records share a (gender, age) pair, the tile matrix
    holds the file name of the last of them, and the array of that pair
    is the delayed read of that one file, built without any exit,
    exception or logged line; computing it gives that file's band. *)
Theorem duplicate_pair_last_wins {CRS px : Type} (px0 : px)
  (fs : folder CRS px) (pre : list rec) (r : rec) (post : list rec)
  (h w : nat) (dtype : string) :
  Forall (fun r' => (gender r', age r') <> (gender r, age r)) post ->
  filename r <> "" ->
  let recs := pre ++ r :: post in
  tile_matrix recs !! (gender r, age r) = Some (filename r)
  /\ exists arr,
       tile (tile_matrix recs) h w dtype (gender r) (age r) = ([], Ok arr)
       /\ arr = Rechunk (FromDelayed (filename r) [h; w] dtype) chunk1024
       /\ compute_slab px0 fs arr
          = match fs (filename r) with
            | Some s => Some (mkArray2 (dtype0 s) (band1 s))
            | None => None
            end.
Proof.
  intros Hpost Hfn recs. subst recs.
  pose proof (tile_matrix_last pre r post Hpost) as Hm.
  split; [exact Hm|]. unfold tile. rewrite Hm.
  destruct (filename r) as [|ch fn'] eqn:E; [contradiction|].
  eexists. split; [reflexivity|]. split; [reflexivity|].
  cbn [compute_slab]. now destruct (fs (String ch fn')).
Qed.

(** Two files for (f, 00): the later name is the one read, whatever the
    first one holds. *)
Lemma duplicate_pair_last_wins_witness :
  let recs := [mkRec "tcd_f_00_2025_v1.tif" "f" "00" "2025"; rec_m00;
               mkRec "tcd-f-00-2025.tif" "f" "00" "2025"; rec_f01] in
  tile_matrix recs !! ("f", "00") = Some "tcd-f-00-2025.tif"
  /\ tile (tile_matrix recs) 2 2 "float32" "f" "00"
     = ([], Ok (Rechunk (FromDelayed "tcd-f-00-2025.tif" [2; 2] "float32")
                  chunk1024)).
Proof.
  assert (Hpost : Forall (fun r' => (gender r', age r') <> ("f", "00"))
                    [rec_f01]) by (repeat constructor; discriminate).
  destruct (duplicate_pair_last_wins 0%Z folder_uniform
              [mkRec "tcd_f_00_2025_v1.tif" "f" "00" "2025"; rec_m00]
              (mkRec "tcd-f-00-2025.tif" "f" "00" "2025") [rec_f01]
              2 2 "float32" Hpost ltac:(discriminate))
    as (Hm & arr & Ht & -> & _).
  split; [exact Hm | exact Ht].
Defined.

Lemma tile_eq (mat : gmap (string * string) string) (h w : nat)
  (dtype g a : string) :
  exists l, tile mat h w dtype g a = (l, Ok (tile_array mat h w dtype g a)).
Proof.
  unfold tile, tile_array.
  destruct (mat !! (g, a)) as [[|ch fn']|]; eexists; reflexivity.
Qed.

Lemma tile_array_shape (mat : gmap (string * string) string) (h w : nat)
  (dtype g a : string) :
  shape (tile_array mat h w dtype g a) = [h; w].
Proof.
  unfold tile_array. now destruct (mat !! (g, a)) as [[|ch fn']|].
Qed.

Lemma build_row_eq (mat : gmap (string * string) string) (h w : nat)
  (dtype g : string) (ages : list string) :
  exists l,
    build_row mat h w dtype g ages
    = (l, Ok (map (tile_array mat h w dtype g) ages)).
Proof.
  induction ages as [|a ages [l IH]]; [eexists; reflexivity|].
  destruct (tile_eq mat h w dtype g a) as [l1 E1].
  cbn [build_row map]. rewrite E1, IH. eexists. reflexivity.
Qed.

Lemma da_stack_same_shape (x : darray) (xs : list darray) (sh : list nat) :
  Forall (fun y => shape y = sh) (x :: xs) ->
  da_stack (x :: xs) = ([], Ok (Stack (x :: xs))).
Proof.
  intros H. unfold da_stack.
  replace (forallb _ (x :: xs)) with true; [reflexivity|].
  symmetry. apply forallb_forall. intros y Hy.
  apply bool_decide_eq_true. rewrite Forall_forall in H.
  apply list_elem_of_In in Hy.
  rewrite (H y Hy). symmetry. apply (H x). now left.
Qed.

Lemma da_stack_row (mat : gmap (string * string) string) (h w : nat)
  (dtype g : string) (ages : list string) :
  ages <> [] ->
  da_stack (map (tile_array mat h w dtype g) ages)
  = ([], Ok (Stack (map (tile_array mat h w dtype g) ages))).
Proof.
  intros Hne. destruct ages as [|a ages]; [contradiction|]. cbn [map].
  apply da_stack_same_shape with (sh := [h; w]).
  change (Forall (fun y => shape y = [h; w])
            (map (tile_array mat h w dtype g) (a :: ages))).
  apply Forall_forall. intros y Hy. apply list_elem_of_In in Hy.
  apply in_map_iff in Hy as (a' & <- & _). apply tile_array_shape.
Qed.

Lemma build_tiles_eq (mat : gmap (string * string) string) (h w : nat)
  (dtype : string) (genders ages : list string) :
  ages <> [] ->
  exists l,
    build_tiles mat h w dtype genders ages
    = (l, Ok (map (fun g => Stack (map (tile_array mat h w dtype g) ages))
                genders)).
Proof.
  intros Hne. induction genders as [|g genders [l IH]]; [eexists; reflexivity|].
  destruct (build_row_eq mat h w dtype g ages) as [l1 E1].
  cbn [build_tiles map]. rewrite E1. cbn [bind].
  rewrite (da_stack_row mat h w dtype g ages Hne). cbn [bind].
  rewrite IH. eexists. reflexivity.
Qed.

Lemma shape_stack_cons (x : darray) (xs : list darray) :
  shape (Stack (x :: xs)) = S (length xs) :: shape x.
Proof. reflexivity. Qed.

Lemma row_stack_shape (mat : gmap (string * string) string) (h w : nat)
  (dtype g : string) (ages : list string) :
  ages <> [] ->
  shape (Stack (map (tile_array mat h w dtype g) ages)) = [length ages; h; w].
Proof.
  intros Hne. destruct ages as [|a ages]; [contradiction|].
  cbn [map]. rewrite shape_stack_cons, tile_array_shape.
  cbn [length]. now rewrite length_map.
Qed.

Lemma build_data_eq (recs : list rec) (h w : nat) (dtype : string)
  (genders ages : list string) :
  genders <> [] -> ages <> [] ->
  exists l,
    build_data recs h w dtype genders ages
    = (l, Ok (grid (tile_matrix recs) h w dtype genders ages)).
Proof.
  intros Hg Ha. unfold build_data, grid.
  destruct (build_tiles_eq (tile_matrix recs) h w dtype genders ages Ha)
    as [l E].
  cbn [log bind]. rewrite E. cbn [bind].
  destruct genders as [|g genders]; [contradiction|].
  cbn [map]. rewrite (da_stack_same_shape _ _ [length ages; h; w]).
  - eexists. reflexivity.
  - change (Forall (fun y => shape y = [length ages; h; w])
              (map (fun g0 => Stack (map (tile_array (tile_matrix recs) h w
                                            dtype g0) ages)) (g :: genders))).
    apply Forall_forall. intros y Hy. apply list_elem_of_In in Hy.
    apply in_map_iff in Hy as (g' & <- & _). now apply row_stack_shape.
Qed.

Lemma grid_shape (mat : gmap (string * string) string) (h w : nat)
  (dtype : string) (genders ages : list string) :
  genders <> [] -> ages <> [] ->
  shape (grid mat h w dtype genders ages) = [length genders; length ages; h; w].
Proof.
  intros Hg Ha. unfold grid. destruct genders as [|g genders]; [contradiction|].
  cbn [map]. rewrite shape_stack_cons.
  rewrite (row_stack_shape mat h w dtype g ages Ha).
  cbn [length]. now rewrite length_map.
Qed.

Lemma grid_item (mat : gmap (string * string) string) (h w : nat)
  (dtype : string) (genders ages : list string) (gi ai : nat) (g a : string) :
  genders !! gi = Some g -> ages !! ai = Some a ->
  exists row,
    item (grid mat h w dtype genders ages) gi = Some row
    /\ item row ai = Some (tile_array mat h w dtype g a).
Proof.
  intros Hg Ha. unfold grid. cbn [item].
  exists (Stack (map (tile_array mat h w dtype g) ages)). split.
  - change (map ?f genders) with (f <$> genders).
    now rewrite list_lookup_fmap, Hg.
  - cbn [item]. change (map ?f ages) with (f <$> ages).
    now rewrite list_lookup_fmap, Ha.
Qed.

Lemma sorted_set_nonempty (l : list string) : l <> [] -> sorted_set l <> [].
Proof.
  intros Hl Hs. unfold sorted_set in Hs.
  assert (P : merge_sort String.le (remove_dups l) ≡ₚ remove_dups l)
    by apply merge_sort_Permutation.
  rewrite Hs in P. apply Permutation_nil in P.
  destruct l as [|x l]; [contradiction|].
  assert (x ∈ remove_dups (x :: l)) as Hx
    by (apply elem_of_remove_dups; left).
  rewrite P in Hx. inversion Hx.
Qed.

Lemma sorted_by_int_nonempty (l ages : list string) (l0 : list event) :
  l <> [] -> sorted_by_int l = (l0, Ok ages) -> ages <> [].
Proof.
  intros Hl E Ha. unfold sorted_by_int in E.
  destruct (forallb _ _); [|discriminate E].
  injection E as _ E. subst ages.
  assert (P : merge_sort int_le (remove_dups l) ≡ₚ remove_dups l)
    by apply merge_sort_Permutation.
  rewrite Ha in P. apply Permutation_nil in P.
  destruct l as [|x l]; [contradiction|].
  assert (x ∈ remove_dups (x :: l)) as Hx
    by (apply elem_of_remove_dups; left).
  rewrite P in Hx. inversion Hx.
Qed.

(** C1: for a record set that is not empty, with the axes the script
    derives from it, the grid builder returns an array of shape
    (|genders|, |ages|, rows, cols), however many pairs have no record;
    the slab of a pair without a record has the reference shape and
    dtype and computes to the all-zero array. *)
Theorem grid_shape_and_zero_fill {CRS px : Type} (px0 : px)
  (fs : folder CRS px) (recs : list rec) (h w : nat) (dtype : string)
  (ages : list string) (l0 : list event) :
  recs <> [] ->
  sorted_by_int (map age recs) = (l0, Ok ages) ->
  let genders := sorted_set (map gender recs) in
  exists l data,
    build_data recs h w dtype genders ages = (l, Ok data)
    /\ shape data = [length genders; length ages; h; w]
    /\ forall gi ai g a,
         genders !! gi = Some g -> ages !! ai = Some a ->
         Forall (fun r => (gender r, age r) <> (g, a)) recs ->
         exists row slab,
           item data gi = Some row /\ item row ai = Some slab
           /\ shape slab = [h; w] /\ dtype_of slab = dtype
           /\ compute_slab px0 fs slab = Some (np_zeros px0 h w dtype).
Proof.
  intros Hrecs Hages genders.
  assert (Hg : genders <> []).
  { apply sorted_set_nonempty. now destruct recs. }
  assert (Ha : ages <> []).
  { apply (sorted_by_int_nonempty (map age recs) ages l0); [|exact Hages].
    now destruct recs. }
  destruct (build_data_eq recs h w dtype genders ages Hg Ha) as [l E].
  exists l, (grid (tile_matrix recs) h w dtype genders ages).
  split; [exact E|]. split; [now apply grid_shape|].
  intros gi ai g a Hgi Hai Hmiss.
  destruct (grid_item (tile_matrix recs) h w dtype genders ages gi ai g a
              Hgi Hai) as (row & Hrow & Hslab).
  exists row, (tile_array (tile_matrix recs) h w dtype g a).
  split; [exact Hrow|]. split; [exact Hslab|].
  unfold tile_array. rewrite (tile_matrix_absent recs g a Hmiss).
  repeat split.
Qed.

(** Tiles for (f, 00), (m, 00) and (f, 01): the slab of (m, 01) is
    zeros. *)
Lemma grid_shape_and_zero_fill_witness :
  exists l data,
    build_data [rec_f00; rec_m00; rec_f01] 2 2 "float32" ["f"; "m"] ["00"; "01"]
    = (l, Ok data)
    /\ shape data = [2; 2; 2; 2]
    /\ exists row slab,
         item data 1 = Some row /\ item row 1 = Some slab
         /\ compute_slab 0%Z folder_uniform slab
            = Some (mkArray2 "float32" [[0; 0]; [0; 0]]%Z).
Proof.
  destruct (grid_shape_and_zero_fill 0%Z folder_uniform
              [rec_f00; rec_m00; rec_f01] 2 2 "float32" ["00"; "01"] []
              ltac:(discriminate) eq_refl)
    as (l & data & E & Hshape & Hzero).
  exists l, data. split; [exact E|]. split; [exact Hshape|].
  destruct (Hzero 1 1 "m" "01" eq_refl eq_refl) as (row & slab & H1 & H2 & _ & _ & H3).
  - repeat constructor; discriminate.
  - exists row, slab. repeat split; assumption.
Defined.

(** ** The whole run *)

Lemma filter_none {A : Type} (P : A -> Prop) `{forall x, Decision (P x)}
  (l : list A) :
  Forall (fun x => ~ P x) l -> filter P l = [].
Proof.
  induction 1 as [|x l Hx _ IH]; [reflexivity|].
  rewrite filter_cons. destruct (decide (P x)); [contradiction | exact IH].
Qed.

Lemma filter_all {A : Type} (P : A -> Prop) `{forall x, Decision (P x)}
  (l : list A) :
  Forall P l -> filter P l = l.
Proof.
  induction 1 as [|x l Hx _ IH]; [reflexivity|].
  rewrite filter_cons. destruct (decide (P x)); [now rewrite IH | contradiction].
Qed.

(** C6: with a configured year that no parsed record has, the run logs
    "Using year=..., files=0" and two empty axes, and then ends with the
    uncaught IndexError of [recs[0]]: not with an exit message about the
    year. *)
Theorem missing_year_raises_index_error {CRS px : Type}
  (crs_ne : CRS -> CRS -> bool) (listdir : list string) (fs : folder CRS px)
  (yr : string) :
  let files := filter (fun f => endswith (lower f) ".tif" = true) listdir in
  parse_files files <> [] ->
  yr <> "" ->
  Forall (fun r => year r <> yr) (parse_files files) ->
  main crs_ne listdir fs (Some yr)
  = ([LogScanning; LogFound (length files); LogUsing yr 0;
      LogGenders []; LogAges []],
     Raise IndexError).
Proof.
  intros files Hrecs Hyr Hnone. unfold main. fold files.
  destruct files as [|f files'] eqn:Ef; [now destruct Hrecs|].
  destruct (parse_files (f :: files')) as [|r recs] eqn:Er;
    [now destruct Hrecs|].
  destruct yr as [|ch yr']; [now destruct Hyr|].
  cbn [bind ret log app]. rewrite (filter_none (fun r0 => year r0 = String ch yr') (r :: recs) Hnone).
  reflexivity.
Qed.

Lemma missing_year_raises_index_error_witness :
  main epsg_ne ["tcd_f_00_2024.tif"; "tcd_m_00_2024.tif"] folder_uniform
    (Some "2025")
  = ([LogScanning; LogFound 2; LogUsing "2025" 0; LogGenders []; LogAges []],
     Raise IndexError).
Proof.
  apply (missing_year_raises_index_error epsg_ne
           ["tcd_f_00_2024.tif"; "tcd_m_00_2024.tif"] folder_uniform "2025").
  - vm_compute. discriminate.
  - discriminate.
  - vm_compute. repeat constructor; discriminate.
Defined.

Lemma parse_files_parsed_only (files : list string) :
  parse_files (filter (fun f => is_Some (parse f)) files) = parse_files files.
Proof.
  unfold parse_files. induction files as [|f files IH]; [reflexivity|].
  rewrite filter_cons. destruct (decide (is_Some (parse f))) as [Hf | Hf].
  - cbn [omap list_omap]. now rewrite IH.
  - cbn [omap list_omap]. rewrite IH.
    destruct (parse f) as [r|]; [|reflexivity].
    destruct Hf. now exists r.
Qed.

Lemma filter_nonempty {A : Type} (P : A -> Prop) `{forall x, Decision (P x)}
  (l : list A) :
  filter P l <> [] -> l <> [].
Proof. intros Hf ->. now apply Hf. Qed.

(** C7 (as amended): names with the .tif extension that fail the pattern
    are dropped without a word: when at least one name parses, the run on
    the whole listing ends as the run on the parsed names alone and logs
    the same lines, but for the number of .tif files found. *)
Theorem unparsed_names_dropped_silently {CRS px : Type}
  (crs_ne : CRS -> CRS -> bool) (listdir : list string) (fs : folder CRS px)
  (YEAR_FILTER : option string) :
  let files := filter (fun f => endswith (lower f) ".tif" = true) listdir in
  let parsed := filter (fun f => is_Some (parse f)) files in
  parsed <> [] ->
  exists l r,
    main crs_ne listdir fs YEAR_FILTER
    = (LogScanning :: LogFound (length files) :: l, r)
    /\ main crs_ne parsed fs YEAR_FILTER
       = (LogScanning :: LogFound (length parsed) :: l, r).
Proof.
  intros files parsed Hne.
  assert (Hfiles : files <> []) by exact (filter_nonempty _ _ Hne).
  assert (Hsame : filter (fun f => endswith (lower f) ".tif" = true) parsed
                  = parsed).
  { apply filter_all. apply Forall_forall. intros f Hf.
    apply list_elem_of_filter in Hf as [_ Hf].
    now apply list_elem_of_filter in Hf as [Hf _]. }
  pose proof (parse_files_parsed_only files) as Hp. fold parsed in Hp.
  unfold main. rewrite Hsame. fold files.
  destruct files as [|f files']; [now destruct Hfiles|].
  destruct parsed as [|g parsed']; [now destruct Hne|].
  rewrite Hp.
  match goal with
  | |- context [match parse_files (f :: files') with
                | [] => ?a | x :: xs => @?b x xs end] =>
      destruct (match parse_files (f :: files') with
                | [] => a | x :: xs => b x xs end) as [l r]
  end.
  exists l, r. split; reflexivity.
Qed.

Lemma unparsed_names_dropped_silently_witness :
  exists l r,
    main epsg_ne ["notes.tif"; "tcd_f_00_2025.tif"; "readme.txt"]
      folder_uniform None
    = (LogScanning :: LogFound 2 :: l, r)
    /\ main epsg_ne ["tcd_f_00_2025.tif"] folder_uniform None
       = (LogScanning :: LogFound 1 :: l, r).
Proof.
  refine (unparsed_names_dropped_silently epsg_ne
            ["notes.tif"; "tcd_f_00_2025.tif"; "readme.txt"]
            folder_uniform None _).
  vm_compute. discriminate.
Defined.

(** C7 as stated fails: with notes.tif beside one good tile the run logs
    twelve lines, none of them a warning and none naming notes.tif, and
    ends normally. *)
Lemma unparsed_name_not_reported :
  ~ (forall (listdir : list string) (fs : folder nat Z)
            (YEAR_FILTER : option string) (f : string),
        f ∈ listdir -> endswith (lower f) ".tif" = true -> parse f = None ->
        exists ev,
          ev ∈ fst (main epsg_ne listdir fs YEAR_FILTER)
          /\ (is_warning ev = true \/ names_file ev f = true)).
Proof.
  intros H.
  destruct (H ["notes.tif"; "tcd_f_00_2025.tif"] folder_uniform None
              "notes.tif") as (ev & Hev & Hw).
  - left.
  - reflexivity.
  - reflexivity.
  - assert (E : fst (main epsg_ne ["notes.tif"; "tcd_f_00_2025.tif"]
                       folder_uniform None)
                = [LogScanning; LogFound 2; LogUsing "2025" 1;
                   LogGenders ["f"]; LogAges ["00"];
                   LogInspecting "tcd_f_00_2025.tif";
                   LogSample 2 2 "float32"; LogChecking; LogChecked 1 1;
                   LogBuilding; LogShape [1; 1; 2; 2]; LogCoords])
      by (vm_compute; reflexivity).
    rewrite E in Hev.
    repeat (apply elem_of_cons in Hev as [-> | Hev];
            [destruct Hw as [Hw | Hw]; discriminate Hw|]).
    inversion Hev.
Qed.

(** ** Sample runs *)

Example parse_sample :
  parse "tcd_f_00_2025_CN_100m_R2024B_v1.tif"
  = Some (mkRec "tcd_f_00_2025_CN_100m_R2024B_v1.tif" "f" "00" "2025").
Proof. vm_compute. reflexivity. Qed.

Example parse_upper :
  parse "TCD-M-05-2020.TIF" = Some (mkRec "TCD-M-05-2020.TIF" "m" "05" "2020").
Proof. vm_compute. reflexivity. Qed.

(** A qualifier needs some text after its separator. *)
Example parse_empty_qualifier : parse "tcd_f_00_2025_.tif" = None.
Proof. vm_compute. reflexivity. Qed.

(** The greedy qualifier gives back characters until the extension
    fits. *)
Example parse_inner_extension :
  parse "tcd_t_80_2025_a.tif.tif"
  = Some (mkRec "tcd_t_80_2025_a.tif.tif" "t" "80" "2025").
Proof. vm_compute. reflexivity. Qed.

(** Three tiles of one year, one pair missing: the run ends normally with
    a 2 x 2 x 2 x 2 array and one notice. *)
Example run_with_missing_pair :
  main epsg_ne ["tcd_f_00_2025.tif"; "tcd_m_00_2025.tif"; "tcd_f_01_2025.tif"]
    folder_uniform (Some "2025")
  = ([LogScanning; LogFound 3; LogUsing "2025" 3; LogGenders ["f"; "m"];
      LogAges ["00"; "01"]; LogInspecting "tcd_f_00_2025.tif";
      LogSample 2 2 "float32"; LogChecking; LogChecked 3 3; LogBuilding;
      LogMissing "m" "01"; LogShape [2; 2; 2; 2]; LogCoords],
     Ok (mkDataset
           (Stack
              [Stack [Rechunk (FromDelayed "tcd_f_00_2025.tif" [2; 2] "float32")
                        chunk1024;
                      Rechunk (FromDelayed "tcd_f_01_2025.tif" [2; 2] "float32")
                        chunk1024];
               Stack [Rechunk (FromDelayed "tcd_m_00_2025.tif" [2; 2] "float32")
                        chunk1024;
                      Zeros [2; 2] "float32" chunk1024]])
           [0.5; 1.5]%float [1.5; 0.5]%float "2025")).
Proof. vm_compute. reflexivity. Qed.

(** One tile shifted by a unit: the run stops at the check. *)
Example run_with_shifted_tile :
  main epsg_ne ["tcd_f_00_2025.tif"; "tcd_m_00_2025.tif"] folder_one_shifted None
  = ([LogScanning; LogFound 2; LogUsing "2025" 2; LogGenders ["f"; "m"];
      LogAges ["00"]; LogInspecting "tcd_f_00_2025.tif";
      LogSample 2 2 "float32"; LogChecking],
     Exit "Transform mismatch tcd_m_00_2025.tif").
Proof. vm_compute. reflexivity. Qed.

(** * Further properties *)

(** ** What a parsed name looks like *)

Lemma run_suffix_range (s : string) (g : groups) :
  run true suffix_re s g found = None \/ run true suffix_re s g found = Some g.
Proof.
  unfold suffix_re.
  change (run true (Cat (Opt (Cat sep (Plus Dot))) ext_re) s g found)
    with (match run true (Cat sep (Plus Dot)) s g
                  (fun s' g' => run true ext_re s' g' found) with
          | Some g' => Some g'
          | None => run true ext_re s g found
          end).
  destruct (run_qualifier_range s g) as [-> | ->]; [|now right].
  apply run_ext_range.
Qed.

Lemma run_prefix_eq (c1 c2 c3 s1 x s2 d1 d2 s3 y1 y2 y3 y4 : ascii)
  (rest : string) :
  STRICT_REGEX_match
    (String c1 (String c2 (String c3 (String s1 (String x (String s2
      (String d1 (String d2 (String s3
        (String y1 (String y2 (String y3 (String y4 rest)))))))))))))
  = if is_letter c1 && is_letter c2 && is_letter c3 && is_sep s1
       && is_fmt x && is_sep s2 && is_digit d1 && is_digit d2 && is_sep s3
       && is_digit y1 && is_digit y2 && is_digit y3 && is_digit y4
    then run true suffix_re rest
           [("year", String y1 (String y2 (String y3 (String y4 ""))));
            ("age", String d1 (String d2 ""));
            ("gender", String x "");
            ("country", String c1 (String c2 (String c3 "")))]
           found
    else None.
Proof.
  destruct (is_letter c1) eqn:H1; [|unfold STRICT_REGEX_match, rmatch, STRICT_REGEX; cbn [run]; now rewrite accepts_range_az, H1].
  destruct (is_letter c2) eqn:H2; [|unfold STRICT_REGEX_match, rmatch, STRICT_REGEX; cbn [run]; now rewrite !accepts_range_az, H1, H2].
  destruct (is_letter c3) eqn:H3; [|unfold STRICT_REGEX_match, rmatch, STRICT_REGEX; cbn [run]; now rewrite !accepts_range_az, H1, H2, H3].
  destruct (is_sep s1) eqn:H4; [|unfold STRICT_REGEX_match, rmatch, STRICT_REGEX, sep; cbn [run]; now rewrite !accepts_range_az, H1, H2, H3, accepts_sep, H4].
  destruct (is_fmt x) eqn:H5; [|unfold STRICT_REGEX_match, rmatch, STRICT_REGEX, sep; cbn [run]; now rewrite !accepts_range_az, H1, H2, H3, accepts_sep, H4, accepts_fmt, H5].
  cbn [andb].
  unfold STRICT_REGEX_match, rmatch, STRICT_REGEX, sep. cbn [run].
  rewrite !accepts_range_az, !accepts_sep, !accepts_digit, !accepts_fmt.
  rewrite H1, H2, H3, H4, H5.
  destruct (is_sep s2); [|reflexivity].
  destruct (is_digit d1); [|reflexivity].
  destruct (is_digit d2); [|reflexivity].
  destruct (is_sep s3); [|reflexivity].
  destruct (is_digit y1); [|reflexivity].
  destruct (is_digit y2); [|reflexivity].
  destruct (is_digit y3); [|reflexivity].
  destruct (is_digit y4); [|reflexivity].
  cbn [andb]. rewrite consumed1, consumed2, consumed3, consumed4.
  reflexivity.
Qed.

Ltac no_match :=
  unfold STRICT_REGEX_match, rmatch, STRICT_REGEX, sep; cbn [run];
  repeat match goal with
         | |- context [if ?b then _ else _] => destruct b
         end;
  reflexivity.

Lemma short_name_no_match (fn : string) :
  String.length fn < 13 -> STRICT_REGEX_match fn = None.
Proof.
  intros Hlen.
  do 13 (destruct fn as [|? fn]; [no_match|]).
  cbn [String.length] in Hlen. lia.
Qed.

(** The shape of every name the pattern takes. *)
Lemma match_inv (fn : string) (m : groups) :
  STRICT_REGEX_match fn = Some m ->
  exists c1 c2 c3 s1 x s2 d1 d2 s3 y1 y2 y3 y4 rest,
    fn = String c1 (String c2 (String c3 (String s1 (String x (String s2
           (String d1 (String d2 (String s3
             (String y1 (String y2 (String y3 (String y4 rest))))))))))))
    /\ (is_letter c1 && is_letter c2 && is_letter c3 && is_sep s1
        && is_fmt x && is_sep s2 && is_digit d1 && is_digit d2 && is_sep s3
        && is_digit y1 && is_digit y2 && is_digit y3 && is_digit y4) = true
    /\ m = [("year", String y1 (String y2 (String y3 (String y4 ""))));
            ("age", String d1 (String d2 ""));
            ("gender", String x "");
            ("country", String c1 (String c2 (String c3 "")))]
    /\ run true suffix_re rest m found = Some m.
Proof.
  intros H.
  destruct (Nat.lt_ge_cases (String.length fn) 13) as [Hlt | Hge].
  { rewrite (short_name_no_match fn Hlt) in H. discriminate H. }
  do 13 (destruct fn as [|? fn]; [cbn [String.length] in Hge; lia|]).
  rewrite run_prefix_eq in H.
  match type of H with
  | (if ?b then _ else _) = _ => destruct b eqn:Hb; [|discriminate H]
  end.
  do 14 eexists. split; [reflexivity|]. split; [exact Hb|].
  match type of H with
  | run true suffix_re ?r ?g found = _ =>
      destruct (run_suffix_range r g) as [E | E]; rewrite E in H;
      [discriminate H | injection H as <-]
  end.
  split; [reflexivity | exact E].
Qed.



Lemma parse_inv (fn : string) (r : rec) :
  parse fn = Some r ->
  exists c1 c2 c3 s1 x s2 d1 d2 s3 y1 y2 y3 y4 rest,
    fn = String c1 (String c2 (String c3 (String s1 (String x (String s2
           (String d1 (String d2 (String s3
             (String y1 (String y2 (String y3 (String y4 rest))))))))))))
    /\ (is_letter c1 && is_letter c2 && is_letter c3 && is_sep s1
        && is_fmt x && is_sep s2 && is_digit d1 && is_digit d2 && is_sep s3
        && is_digit y1 && is_digit y2 && is_digit y3 && is_digit y4) = true
    /\ r = mkRec fn (String (chr_lower x) "") (String d1 (String d2 ""))
             (String y1 (String y2 (String y3 (String y4 ""))))
    /\ run true suffix_re rest
         [("year", String y1 (String y2 (String y3 (String y4 ""))));
          ("age", String d1 (String d2 ""));
          ("gender", String x "");
          ("country", String c1 (String c2 (String c3 "")))] found <> None.
Proof.
  unfold parse. intros H.
  destruct (STRICT_REGEX_match fn) as [m|] eqn:Hm; [|discriminate H].
  destruct (match_inv fn m Hm)
    as (c1 & c2 & c3 & s1 & x & s2 & d1 & d2 & s3 & y1 & y2 & y3 & y4 & rest
        & Hfn & Hb & -> & Hs).
  cbn in H. injection H as <-.
  do 14 eexists. split; [exact Hfn|]. split; [exact Hb|].
  split; [reflexivity|]. now rewrite Hs.
Qed.



(** ** The extension of a parsed name *)
















(** The second case is real: the pattern's [$] also holds before a final
    line feed, and the scan then drops the name. *)
Example parse_trailing_newline :
  let fn := "tcd_f_00_2025.tif" +:+ String newline "" in
  parse fn = Some (mkRec fn "f" "00" "2025")
  /\ endswith (lower fn) ".tif" = false.
Proof. vm_compute. split; reflexivity. Qed.

(** ** The axes *)

Lemma sorted_set_elem (x : string) (l : list string) :
  x ∈ sorted_set l <-> x ∈ l.
Proof.
  unfold sorted_set. rewrite merge_sort_Permutation.
  apply elem_of_remove_dups.
Qed.

Lemma sorted_set_NoDup (l : list string) : NoDup (sorted_set l).
Proof.
  unfold sorted_set. rewrite merge_sort_Permutation.
  apply NoDup_remove_dups.
Qed.

Lemma sorted_set_sorted (l : list string) :
  StronglySorted String.le (sorted_set l).
Proof. unfold sorted_set. apply StronglySorted_merge_sort; apply _. Qed.

Lemma sorted_last_greatest {A : Type} (R : A -> A -> Prop) (l : list A) (y : A) :
  StronglySorted R l -> last l = Some y ->
  forall x, x ∈ l -> x = y \/ R x y.
Proof.
  induction 1 as [|z l Hl IH Hz]; intros Hlast x Hx; [inversion Hx|].
  destruct l as [|z' l'].
  - cbn in Hlast. injection Hlast as <-.
    apply list_elem_of_singleton in Hx. now left.
  - rewrite last_cons_cons in Hlast.
    apply elem_of_cons in Hx as [-> | Hx]; [|now apply IH].
    right. rewrite Forall_forall in Hz. apply Hz.
    now apply last_Some_elem_of.
Qed.

(** X3: the automatic choice [years[-1]] of a record list that is not
    empty is a year of some record and no record has a later one, in the
    order of strings. *)
Theorem latest_year_is_greatest (recs : list rec) :
  recs <> [] ->
  exists y,
    last_item (sorted_set (map year recs)) = ([], Ok y)
    /\ (exists r, r ∈ recs /\ year r = y)
    /\ forall r, r ∈ recs -> String.le (year r) y.
Proof.
  intros Hne. unfold last_item.
  destruct (last (sorted_set (map year recs))) as [y|] eqn:E.
  - exists y. split; [reflexivity|].
    pose proof (last_Some_elem_of _ _ E) as Hy.
    apply (proj1 (sorted_set_elem _ _)) in Hy. split.
    + change (map year recs) with (year <$> recs) in Hy.
      apply (proj1 (list_elem_of_fmap _ _ _)) in Hy as (r & -> & Hr).
      now exists r.
    + intros r Hr.
      destruct (sorted_last_greatest String.le _ y
                  (sorted_set_sorted (map year recs)) E (year r))
        as [-> | Hle]; [| reflexivity | exact Hle].
      apply sorted_set_elem. change (map year recs) with (year <$> recs).
      apply list_elem_of_fmap. now exists r.
  - apply last_None in E.
    destruct (sorted_set_nonempty (map year recs)); [|exact E].
    now destruct recs.
Qed.

Lemma latest_year_is_greatest_witness :
  exists y,
    last_item (sorted_set
                 (map year [mkRec "a" "f" "00" "2020"; mkRec "b" "f" "00" "2025";
                            mkRec "c" "m" "00" "2015"])) = ([], Ok y)
    /\ y = "2025".
Proof.
  destruct (latest_year_is_greatest
              [mkRec "a" "f" "00" "2020"; mkRec "b" "f" "00" "2025";
               mkRec "c" "m" "00" "2015"] ltac:(discriminate))
    as (y & E & _ & _).
  exists y. split; [exact E|].
  vm_compute in E. now injection E as <-.
Defined.

Lemma sorted_strict {A : Type} (R R' : A -> A -> Prop) (l : list A) :
  (forall x y, R x y -> x <> y -> R' x y) ->
  StronglySorted R l -> NoDup l -> StronglySorted R' l.
Proof.
  intros HR. induction 1 as [|z l Hl IH Hz]; intros Hnd; constructor.
  - apply IH. now apply NoDup_cons in Hnd as [_ Hnd].
  - apply NoDup_cons in Hnd as [Hz' _].
    rewrite Forall_forall in Hz |- *. intros x Hx.
    apply HR; [now apply Hz|]. intros ->. now apply Hz'.
Qed.

(** X4: the gender axis (and the list of years) holds each value of
    the records exactly once, in strictly ascending order of strings. *)
Theorem sorted_set_axis (l : list string) :
  (forall x, x ∈ sorted_set l <-> x ∈ l)
  /\ NoDup (sorted_set l)
  /\ StronglySorted (fun a b => String.le a b /\ a <> b) (sorted_set l).
Proof.
  split; [intros x; apply sorted_set_elem|].
  split; [apply sorted_set_NoDup|].
  apply (sorted_strict String.le); [now split | apply sorted_set_sorted
                                   | apply sorted_set_NoDup].
Qed.

Lemma sorted_with {A : Type} (R : A -> A -> Prop) (P : A -> Prop)
  (l : list A) :
  StronglySorted R l -> Forall P l ->
  StronglySorted (fun a b => R a b /\ P a /\ P b) l.
Proof.
  induction 1 as [|z l Hl IH Hz]; intros F0; constructor.
  - apply IH. now apply Forall_inv_tail in F0.
  - pose proof (Forall_inv F0) as Fz. apply Forall_inv_tail in F0.
    rewrite Forall_forall in Hz, F0 |- *. intros x Hx.
    split; [now apply Hz|]. split; [exact Fz | now apply F0].
Qed.

Lemma digit_code (c : ascii) :
  is_digit c = true -> 48 <= code c <= 57.
Proof.
  unfold is_digit, in_range. intros H.
  apply andb_true_iff in H as [H1 H2].
  apply Nat.leb_le in H1, H2. exact (conj H1 H2).
Qed.

Lemma py_int_two_digits (d1 d2 : ascii) :
  is_digit d1 = true -> is_digit d2 = true ->
  py_int (String d1 (String d2 ""))
  = Some (10 * (10 * 0 + (code d1 - 48)) + (code d2 - 48)).
Proof.
  intros H1 H2. unfold py_int. cbn [int_digits]. unfold digit_val.
  unfold is_digit in H1, H2. now rewrite H1, H2.
Qed.

Lemma code_inj (c c' : ascii) : code c = code c' -> c = c'.
Proof.
  unfold code. intros H.
  rewrite <- (ascii_nat_embedding c), <- (ascii_nat_embedding c').
  now rewrite H.
Qed.

Lemma two_digits_inv (a : string) :
  two_digits a ->
  exists d1 d2, a = String d1 (String d2 "")
                /\ is_digit d1 = true /\ is_digit d2 = true.
Proof.
  intros [Hl He]. destruct a as [|d1 [|d2 [|? ?]]]; try discriminate Hl.
  cbn [every] in He. apply andb_true_iff in He as [H1 He].
  apply andb_true_iff in He as [H2 _]. now exists d1, d2.
Qed.

Lemma int_key_inj (a b : string) :
  two_digits a -> two_digits b -> int_key a = int_key b -> a = b.
Proof.
  intros (d1 & d2 & -> & H1 & H2)%two_digits_inv
         (e1 & e2 & -> & G1 & G2)%two_digits_inv.
  assert (E1 : int_key (String d1 (String d2 ""))
               = 10 * (10 * 0 + (code d1 - 48)) + (code d2 - 48))
    by (unfold int_key; now rewrite py_int_two_digits).
  assert (E2 : int_key (String e1 (String e2 ""))
               = 10 * (10 * 0 + (code e1 - 48)) + (code e2 - 48))
    by (unfold int_key; now rewrite py_int_two_digits).
  rewrite E1, E2. clear E1 E2.
  apply digit_code in H1, H2, G1, G2. intros H.
  assert (code d1 = code e1) by lia. assert (code d2 = code e2) by lia.
  f_equal; [|f_equal]; now apply code_inj.
Qed.

#[local] Instance int_le_transitive : Transitive int_le.
Proof. unfold int_le. intros a b c ? ?. lia. Qed.

#[local] Instance int_le_total : Total int_le.
Proof. unfold int_le. intros a b. lia. Qed.

Lemma sorted_by_int_two_digits (l : list string) :
  Forall two_digits l ->
  sorted_by_int l = ([], Ok (merge_sort int_le (remove_dups l))).
Proof.
  intros Hl. unfold sorted_by_int.
  replace (forallb _ (remove_dups l)) with true; [reflexivity|].
  symmetry. apply forallb_forall. intros a Ha.
  apply list_elem_of_In in Ha.
  apply (proj1 (elem_of_remove_dups _ _)) in Ha.
  rewrite Forall_forall in Hl.
  destruct (two_digits_inv a (Hl a Ha)) as (d1 & d2 & -> & H1 & H2).
  apply bool_decide_eq_true. rewrite py_int_two_digits by assumption.
  now eexists.
Qed.

(** X5: for ages of two digits each, as parsed records have them,
    [sorted(..., key=int)] raises nothing and the age axis holds each
    age exactly once, in strictly increasing order of their numbers. *)
Theorem age_axis_sorted (l : list string) :
  Forall two_digits l ->
  exists ages,
    sorted_by_int l = ([], Ok ages)
    /\ (forall a, a ∈ ages <-> a ∈ l)
    /\ NoDup ages
    /\ StronglySorted (fun a b => int_key a < int_key b) ages.
Proof.
  intros Hl. exists (merge_sort int_le (remove_dups l)).
  assert (Hin : forall a, a ∈ merge_sort int_le (remove_dups l) <-> a ∈ l).
  { intros a. rewrite merge_sort_Permutation. apply elem_of_remove_dups. }
  assert (Hnd : NoDup (merge_sort int_le (remove_dups l))).
  { rewrite merge_sort_Permutation. apply NoDup_remove_dups. }
  split; [|split; [exact Hin | split; [exact Hnd|]]].
  - now apply sorted_by_int_two_digits.
  - assert (Hs : StronglySorted (fun a b => int_le a b /\ two_digits a
                                            /\ two_digits b)
                   (merge_sort int_le (remove_dups l))).
    { apply sorted_with.
      - apply StronglySorted_merge_sort; apply _.
      - apply Forall_forall. intros a Ha. rewrite Forall_forall in Hl.
        apply Hl. now apply Hin. }
    apply (sorted_strict (fun a b => int_le a b /\ two_digits a
                                     /\ two_digits b));
      [|exact Hs | exact Hnd].
    intros a b (Hle & Ta & Tb) Hne. unfold int_le in Hle.
    destruct (Nat.eq_dec (int_key a) (int_key b)) as [E | E]; [|lia].
    destruct Hne. now apply int_key_inj.
Qed.

Lemma age_axis_sorted_witness :
  sorted_by_int ["10"; "05"; "80"; "05"; "00"] = ([], Ok ["00"; "05"; "10"; "80"]).
Proof.
  assert (H : Forall two_digits ["10"; "05"; "80"; "05"; "00"])
    by (repeat constructor).
  destruct (age_axis_sorted _ H) as (ages & E & _).
  rewrite E. vm_compute in E. now injection E as <-.
Defined.

(** ** The tile matrix and the notices of the builder *)

Lemma tile_matrix_lookup_inv (recs : list rec) (g a fn : string) :
  tile_matrix recs !! (g, a) = Some fn ->
  exists r, r ∈ recs /\ gender r = g /\ age r = a /\ filename r = fn.
Proof.
  induction recs as [|r recs IH] using rev_ind.
  - unfold tile_matrix. cbn. now rewrite lookup_empty.
  - rewrite tile_matrix_snoc.
    destruct (decide ((gender r, age r) = (g, a))) as [E | E].
    + rewrite E, lookup_insert_eq. injection E as Eg Ea.
      intros [= <-]. exists r. split; [|now split].
      apply elem_of_app. right. now left.
    + rewrite lookup_insert_ne by exact E. intros H.
      destruct (IH H) as (r' & Hr' & Hrest).
      exists r'. split; [|exact Hrest]. apply elem_of_app. now left.
Qed.

Lemma tile_matrix_lookup_some (recs : list rec) (r : rec) :
  r ∈ recs -> is_Some (tile_matrix recs !! (gender r, age r)).
Proof.
  induction recs as [|r' recs IH] using rev_ind; intros Hr; [inversion Hr|].
  rewrite tile_matrix_snoc.
  destruct (decide ((gender r', age r') = (gender r, age r))) as [E | E].
  - rewrite E, lookup_insert_eq. now eexists.
  - rewrite lookup_insert_ne by exact E. apply IH.
    apply elem_of_app in Hr as [Hr | Hr]; [exact Hr|].
    apply list_elem_of_singleton in Hr. subst r'. now destruct E.
Qed.

(** X6: every entry of the tile matrix is the file name of a record with
    that (gender, age) pair, and a pair has an entry exactly when some
    record has it. *)
Theorem tile_matrix_entries (recs : list rec) (g a : string) :
  (forall fn, tile_matrix recs !! (g, a) = Some fn ->
              exists r, r ∈ recs /\ gender r = g /\ age r = a
                        /\ filename r = fn)
  /\ (is_Some (tile_matrix recs !! (g, a))
      <-> exists r, r ∈ recs /\ gender r = g /\ age r = a).
Proof.
  split; [intros fn; apply tile_matrix_lookup_inv|]. split.
  - intros [fn H].
    destruct (tile_matrix_lookup_inv recs g a fn H) as (r & Hr & Hg & Ha & _).
    now exists r.
  - intros (r & Hr & <- & <-). now apply tile_matrix_lookup_some.
Qed.

Lemma tile_log (mat : gmap (string * string) string) (h w : nat)
  (dtype g a : string) :
  tile mat h w dtype g a
  = (match mat !! (g, a) with
     | Some (String _ _) => []
     | _ => [LogMissing g a]
     end, Ok (tile_array mat h w dtype g a)).
Proof.
  unfold tile, tile_array.
  now destruct (mat !! (g, a)) as [[|ch fn']|].
Qed.

Lemma build_row_log (mat : gmap (string * string) string) (h w : nat)
  (dtype g : string) (ages : list string) :
  build_row mat h w dtype g ages
  = (flat_map (fun a => match mat !! (g, a) with
                        | Some (String _ _) => []
                        | _ => [LogMissing g a]
                        end) ages,
     Ok (map (tile_array mat h w dtype g) ages)).
Proof.
  induction ages as [|a ages IH]; [reflexivity|].
  cbn [build_row flat_map map]. rewrite tile_log, IH. cbn [bind ret].
  now rewrite app_nil_r.
Qed.

Lemma build_tiles_log (mat : gmap (string * string) string) (h w : nat)
  (dtype : string) (genders ages : list string) :
  ages <> [] ->
  build_tiles mat h w dtype genders ages
  = (missing_notices mat genders ages,
     Ok (map (fun g => Stack (map (tile_array mat h w dtype g) ages)) genders)).
Proof.
  intros Hne. unfold missing_notices.
  induction genders as [|g genders IH]; [reflexivity|].
  cbn [build_tiles flat_map map]. rewrite build_row_log. cbn [bind].
  rewrite (da_stack_row mat h w dtype g ages Hne). cbn [bind].
  rewrite IH. cbn [bind ret]. now rewrite !app_nil_r.
Qed.

Lemma build_data_run (recs : list rec) (h w : nat) (dtype : string)
  (genders ages : list string) :
  genders <> [] -> ages <> [] ->
  build_data recs h w dtype genders ages
  = (LogBuilding :: missing_notices (tile_matrix recs) genders ages
       ++ [LogShape [length genders; length ages; h; w]],
     Ok (grid (tile_matrix recs) h w dtype genders ages)).
Proof.
  intros Hg Ha.
  unfold build_data. rewrite build_tiles_log by exact Ha.
  cbn [log bind].
  change (map (fun g => Stack (map (tile_array (tile_matrix recs) h w dtype g)
                                 ages)) genders)
    with (match grid (tile_matrix recs) h w dtype genders ages with
          | Stack xs => xs
          | _ => []
          end).
  pose proof (grid_shape (tile_matrix recs) h w dtype genders ages Hg Ha)
    as Hshape.
  assert (Hst : da_stack (match grid (tile_matrix recs) h w dtype genders ages
                          with Stack xs => xs | _ => [] end)
                = ([], Ok (grid (tile_matrix recs) h w dtype genders ages))).
  { unfold grid. destruct genders as [|g0 gs]; [contradiction|].
    cbn [map]. apply da_stack_same_shape with (sh := [length ages; h; w]).
    change (Forall (fun y => shape y = [length ages; h; w])
              (map (fun g1 => Stack (map (tile_array (tile_matrix recs) h w
                                            dtype g1) ages)) (g0 :: gs))).
    apply Forall_forall. intros y Hy. apply list_elem_of_In in Hy.
    apply in_map_iff in Hy as (g' & <- & _). now apply row_stack_shape. }
  rewrite Hst. cbn [bind log ret]. rewrite Hshape.
  cbn [app]. rewrite ?app_nil_r. rewrite <- ?app_assoc. reflexivity.
Qed.

(** X7: with axes that are not empty the builder never fails; it logs
    its heading, one "MISSING tile" line for each pair of the axes that
    has no named file, row by row, and the shape of the result. *)
Theorem build_data_log (recs : list rec) (h w : nat) (dtype : string)
  (genders ages : list string) :
  genders <> [] -> ages <> [] ->
  build_data recs h w dtype genders ages
  = (LogBuilding :: missing_notices (tile_matrix recs) genders ages
       ++ [LogShape [length genders; length ages; h; w]],
     Ok (grid (tile_matrix recs) h w dtype genders ages))
  /\ forall g a,
       LogMissing g a ∈ missing_notices (tile_matrix recs) genders ages
       <-> g ∈ genders /\ a ∈ ages
           /\ (tile_matrix recs !! (g, a) = None
               \/ tile_matrix recs !! (g, a) = Some "").
Proof.
  intros Hg Ha. split.
  - now apply build_data_run.
  - intros g a. unfold missing_notices. split.
    + intros Hin. apply list_elem_of_In in Hin.
      apply in_flat_map in Hin as (g' & Hg' & Hin).
      apply in_flat_map in Hin as (a' & Ha' & Hin).
      apply list_elem_of_In in Hg', Ha'.
      destruct (tile_matrix recs !! (g', a')) as [[|ch fn']|] eqn:El.
      * destruct Hin as [[= <- <-] | []]. auto.
      * destruct Hin.
      * destruct Hin as [[= <- <-] | []]. auto.
    + intros (Hg' & Ha' & Hl). apply list_elem_of_In.
      apply in_flat_map. exists g. split; [now apply list_elem_of_In|].
      apply in_flat_map. exists a. split; [now apply list_elem_of_In|].
      destruct Hl as [-> | ->]; now left.
Qed.

Lemma build_data_log_witness :
  build_data [rec_f00; rec_m00; rec_f01] 2 2 "float32" ["f"; "m"] ["00"; "01"]
  = ([LogBuilding; LogMissing "m" "01"; LogShape [2; 2; 2; 2]],
     Ok (grid (tile_matrix [rec_f00; rec_m00; rec_f01]) 2 2 "float32"
           ["f"; "m"] ["00"; "01"])).
Proof.
  destruct (build_data_log [rec_f00; rec_m00; rec_f01] 2 2 "float32"
              ["f"; "m"] ["00"; "01"] ltac:(discriminate) ltac:(discriminate))
    as [E _].
  rewrite E. reflexivity.
Defined.

Lemma sorted_by_int_elem (l ages : list string) (l0 : list event) :
  sorted_by_int l = (l0, Ok ages) -> forall a, a ∈ ages <-> a ∈ l.
Proof.
  unfold sorted_by_int. destruct (forallb _ _); [|discriminate].
  intros [= _ <-] a. rewrite merge_sort_Permutation.
  apply elem_of_remove_dups.
Qed.

Lemma tile_array_present (recs : list rec) (h w : nat) (dtype : string)
  (r : rec) :
  Forall (fun r' => filename r' <> "") recs -> r ∈ recs ->
  exists fn,
    tile_array (tile_matrix recs) h w dtype (gender r) (age r)
    = Rechunk (FromDelayed fn [h; w] dtype) chunk1024.
Proof.
  intros Hfn Hr.
  destruct (tile_matrix_lookup_some recs r Hr) as [fn Hl].
  destruct (tile_matrix_lookup_inv recs _ _ fn Hl) as (r' & Hr' & _ & _ & Hfn').
  rewrite Forall_forall in Hfn. specialize (Hfn r' Hr').
  unfold tile_array. rewrite Hl. subst fn.
  destruct (filename r'); [contradiction | now eexists].
Qed.

(** X8: with the axes the script derives from records with named files,
    no row and no column of the grid is filler only: every gender of the
    axis has an age whose tile is a delayed read, and every age has such
    a gender. *)
Theorem no_filler_row_or_column (recs : list rec) (h w : nat) (dtype : string)
  (ages : list string) (l0 : list event) :
  Forall (fun r => filename r <> "") recs ->
  sorted_by_int (map age recs) = (l0, Ok ages) ->
  let genders := sorted_set (map gender recs) in
  let mat := tile_matrix recs in
  (forall g, g ∈ genders ->
     exists a fn, a ∈ ages
       /\ tile_array mat h w dtype g a
          = Rechunk (FromDelayed fn [h; w] dtype) chunk1024)
  /\ (forall a, a ∈ ages ->
        exists g fn, g ∈ genders
          /\ tile_array mat h w dtype g a
             = Rechunk (FromDelayed fn [h; w] dtype) chunk1024).
Proof.
  intros Hfn Hages genders mat.
  pose proof (sorted_by_int_elem _ _ _ Hages) as Hain.
  split.
  - intros g Hg. apply (proj1 (sorted_set_elem _ _)) in Hg.
    change (map gender recs) with (gender <$> recs) in Hg.
    apply (proj1 (list_elem_of_fmap _ _ _)) in Hg as (r & -> & Hr).
    destruct (tile_array_present recs h w dtype r Hfn Hr) as [fn E].
    exists (age r), fn. split; [|exact E].
    apply Hain. change (map age recs) with (age <$> recs).
    apply list_elem_of_fmap. now exists r.
  - intros a Ha. apply Hain in Ha.
    change (map age recs) with (age <$> recs) in Ha.
    apply (proj1 (list_elem_of_fmap _ _ _)) in Ha as (r & -> & Hr).
    destruct (tile_array_present recs h w dtype r Hfn Hr) as [fn E].
    exists (gender r), fn. split; [|exact E].
    apply sorted_set_elem. change (map gender recs) with (gender <$> recs).
    apply list_elem_of_fmap. now exists r.
Qed.

Lemma no_filler_row_or_column_witness :
  exists a fn,
    a ∈ ["00"; "01"]
    /\ tile_array (tile_matrix [rec_f00; rec_m00; rec_f01]) 2 2 "float32" "m" a
       = Rechunk (FromDelayed fn [2; 2] "float32") chunk1024.
Proof.
  assert (Hfn : Forall (fun r => filename r <> "") [rec_f00; rec_m00; rec_f01])
    by (repeat constructor; discriminate).
  destruct (no_filler_row_or_column [rec_f00; rec_m00; rec_f01] 2 2 "float32"
              ["00"; "01"] [] Hfn eq_refl) as [Hrow _].
  apply (Hrow "m"). vm_compute. right. left.
Defined.

(** ** Every way the run can end *)

Lemma parse_files_elem (files : list string) (r : rec) :
  r ∈ parse_files files ->
  exists fn, fn ∈ files /\ parse fn = Some r.
Proof.
  unfold parse_files. intros H.
  apply (proj1 (list_elem_of_omap _ _ _)) in H as (fn & Hfn & Hp).
  now exists fn.
Qed.

Lemma parsed_record_shape (fn : string) (r : rec) :
  parse fn = Some r -> filename r = fn /\ two_digits (age r).
Proof.
  intros H.
  destruct (parse_inv fn r H)
    as (c1 & c2 & c3 & s1 & x & s2 & d1 & d2 & s3 & y1 & y2 & y3 & y4 & rest
        & _ & Hb & -> & _).
  repeat (apply andb_true_iff in Hb as [Hb ?]).
  split; [reflexivity|]. split; [reflexivity|].
  cbn [age every]. apply andb_true_iff. split; [assumption|].
  apply andb_true_iff. now split.
Qed.

Lemma parsed_records_ages (files : list string) (recs : list rec) :
  (forall r, r ∈ recs -> r ∈ parse_files files) ->
  Forall two_digits (map age recs).
Proof.
  intros Hsub. apply Forall_forall. intros a Ha.
  change (map age recs) with (age <$> recs) in Ha.
  apply (proj1 (list_elem_of_fmap _ _ _)) in Ha as (r & -> & Hr).
  destruct (parse_files_elem files r (Hsub r Hr)) as (fn & _ & Hp).
  exact (proj2 (parsed_record_shape fn r Hp)).
Qed.

Section CheckOutcome.
Context {CRS px : Type}.
Variable crs_ne : CRS -> CRS -> bool.
Variable fs : folder CRS px.
Variables (h w : nat) (c : CRS) (t : Affine float).


End CheckOutcome.

Section MainCases.
Context {CRS px : Type}.
Variable crs_ne : CRS -> CRS -> bool.
Variable listdir : list string.
Variable fs : folder CRS px.
Variable YEAR_FILTER : option string.

Let files := filter (fun f => endswith (lower f) ".tif" = true) listdir.
Let recs0 := parse_files files.

(** The run, once some name has parsed, by the point where it ends. *)
Lemma main_cases :
  recs0 <> [] ->
  exists yr,
    match YEAR_FILTER with
    | Some (String ch y) => yr = String ch y
    | _ => last (sorted_set (map year recs0)) = Some yr
    end
    /\ let recs := filter (fun r => year r = yr) recs0 in
       let genders := sorted_set (map gender recs) in
       let ages := merge_sort int_le (remove_dups (map age recs)) in
       let pre := [LogScanning; LogFound (length files);
                   LogUsing yr (length recs); LogGenders genders;
                   LogAges ages] in
       match recs with
       | [] => main crs_ne listdir fs YEAR_FILTER = (pre, Raise IndexError)
       | r0 :: _ =>
           match fs (filename r0) with
           | None =>
               main crs_ne listdir fs YEAR_FILTER
               = (pre ++ [LogInspecting (filename r0)], Raise RasterioIOError)
           | Some s =>
               let pre2 := pre ++ [LogInspecting (filename r0);
                                   LogSample (height s) (width s) (dtype0 s)] in
               match check_consistency crs_ne fs (height s) (width s) (crs s)
                       (transform s) recs with
               | (lc, Ok _) =>
                   main crs_ne listdir fs YEAR_FILTER
                   = (pre2 ++ lc
                        ++ (LogBuilding
                              :: missing_notices (tile_matrix recs) genders ages
                              ++ [LogShape [length genders; length ages;
                                            height s; width s]])
                        ++ LogCoords
                        :: (if north_up PrimFloat.abs PrimFloat.ltb eps64
                                 (transform s)
                            then [] else [WarnRotated]),
                      Ok (mkDataset
                            (grid (tile_matrix recs) (height s) (width s)
                               (dtype0 s) genders ages)
                            (map (centre PrimFloat.add PrimFloat.mul
                                    float_of_nat 0.5%float
                                    (tr_c (transform s)) (tr_a (transform s))
                                    (tr_b (transform s)))
                               (np_arange (width s)))
                            (map (centre PrimFloat.add PrimFloat.mul
                                    float_of_nat 0.5%float
                                    (tr_f (transform s)) (tr_e (transform s))
                                    (tr_d (transform s)))
                               (np_arange (height s)))
                            yr))
               | (lc, Exit msg) =>
                   main crs_ne listdir fs YEAR_FILTER = (pre2 ++ lc, Exit msg)
               | (lc, Raise err) =>
                   main crs_ne listdir fs YEAR_FILTER = (pre2 ++ lc, Raise err)
               end
           end
       end.
Proof.
  intros Hne.
  assert (Hyear : exists yr,
             match YEAR_FILTER with
             | Some (String ch y) => yr = String ch y
             | _ => last (sorted_set (map year recs0)) = Some yr
             end
             /\ match YEAR_FILTER with
                | Some (String ch y) => ret (String ch y)
                | _ => last_item (sorted_set (map year recs0))
                end = ([], Ok yr)).
  { destruct (last (sorted_set (map year recs0))) as [y|] eqn:El.
    2: { apply last_None in El.
         destruct (sorted_set_nonempty (map year recs0)); [|exact El].
         now destruct recs0. }
    assert (Ey : last_item (sorted_set (map year recs0)) = ([], Ok y))
      by (unfold last_item; now rewrite El).
    destruct YEAR_FILTER as [[|ch y']|].
    - exists y. now split.
    - exists (String ch y'). now split.
    - exists y. now split. }
  destruct Hyear as (yr & Hyr & Eyr). exists yr. split; [exact Hyr|].
  intros recs genders ages pre.
  assert (Hages : sorted_by_int (map age recs) = ([], Ok ages)).
  { apply sorted_by_int_two_digits.
    apply (parsed_records_ages files). intros r Hr.
    now apply list_elem_of_filter in Hr as [_ Hr]. }
  assert (Hmain : main crs_ne listdir fs YEAR_FILTER
                  = bind (ret tt) (fun _ =>
                    let '(l, res) :=
                      (do r0 <- first_item recs;
                       exec log (LogInspecting (filename r0));
                       do s <- rio_open fs (filename r0);
                       exec log (LogSample (height s) (width s) (dtype0 s));
                       exec check_consistency crs_ne fs (height s) (width s)
                              (crs s) (transform s) recs;
                       do data <- build_data recs (height s) (width s)
                                    (dtype0 s) genders ages;
                       exec log LogCoords;
                       do xy <- compute_coords64 (transform s) (height s)
                                  (width s);
                       ret (mkDataset data (fst xy) (snd xy) yr)) in
                    (pre ++ l, res))).
  { unfold main. fold files. fold recs0.
    destruct files as [|f files'] eqn:Ef.
    { subst recs0. now destruct Hne. }
    destruct recs0 as [|r1 recs1] eqn:Er; [now destruct Hne|].
    cbn [log bind]. rewrite Eyr. cbn [bind].
    fold recs. fold genders. rewrite Hages. cbn [bind log ret].
    fold ages.
    match goal with
    | |- context [bind (first_item recs) ?k] =>
        generalize (bind (first_item recs) k)
    end.
    intros [l r]. subst pre. cbn [app].
    reflexivity. }
  rewrite Hmain. clear Hmain. cbn [bind ret].
  destruct recs as [|r0 recs'] eqn:Erecs; [reflexivity|].
  cbn [first_item bind ret log]. unfold rio_open.
  destruct (fs (filename r0)) as [s|]; [|reflexivity].
  cbn [bind ret log].
  assert (Hg : genders <> []).
  { apply sorted_set_nonempty. discriminate. }
  assert (Ha : ages <> []).
  { apply (sorted_by_int_nonempty (map age (r0 :: recs')) ages []);
      [discriminate | exact Hages]. }
  destruct (check_consistency crs_ne fs (height s) (width s) (crs s)
              (transform s) (r0 :: recs')) as [lc [u | msg | err]];
    cbn [bind]; [|now rewrite ?app_nil_r..].
  rewrite (build_data_run (r0 :: recs') (height s) (width s) (dtype0 s)
             genders ages Hg Ha). cbn [bind log]. unfold compute_coords64.
  rewrite compute_coords_eq. cbn [bind ret fst snd].
  rewrite ?app_nil_r. rewrite <- ?app_assoc. reflexivity.
Qed.
End MainCases.






(** X10: without usable input the run stops before any file is opened:
    a listing with no .tif name ends in "No TIFFs found" after the count
    0, and a listing whose .tif names all fail the pattern ends in
    "No files matched regex"; neither depends on the folder's rasters or
    on the configured year. *)
Theorem no_usable_input_exits {CRS px : Type} (crs_ne : CRS -> CRS -> bool)
  (listdir : list string) (fs : folder CRS px) (YEAR_FILTER : option string) :
  let files := filter (fun f => endswith (lower f) ".tif" = true) listdir in
  (Forall (fun f => endswith (lower f) ".tif" = false) listdir ->
   main crs_ne listdir fs YEAR_FILTER
   = ([LogScanning; LogFound 0], Exit "❌ No TIFFs found"))
  /\ (files <> [] -> Forall (fun f => parse f = None) files ->
      main crs_ne listdir fs YEAR_FILTER
      = ([LogScanning; LogFound (length files)],
         Exit "No files matched regex")).
Proof.
  intros files. split.
  - intros Hnone. unfold main.
    rewrite (filter_none (fun f => endswith (lower f) ".tif" = true) listdir).
    + reflexivity.
    + apply Forall_forall. intros f Hf. rewrite Forall_forall in Hnone.
      rewrite (Hnone f Hf). discriminate.
  - intros Hne Hnone. unfold main. fold files.
    assert (Hp : parse_files files = []).
    { unfold parse_files. clear Hne.
      induction Hnone as [|f fl Hf _ IH]; [reflexivity|].
      cbn [omap list_omap]. rewrite Hf. exact IH. }
    rewrite Hp. destruct files; [now destruct Hne | reflexivity].
Qed.

Lemma no_usable_input_exits_witness :
  main epsg_ne ["readme.txt"; "tiles.zip"] folder_uniform None
  = ([LogScanning; LogFound 0], Exit "❌ No TIFFs found")
  /\ main epsg_ne ["notes.tif"; "tcd_x_00_2025.tif"; "readme.txt"]
       folder_uniform (Some "2025")
     = ([LogScanning; LogFound 2], Exit "No files matched regex").
Proof.
  split.
  - apply (no_usable_input_exits epsg_ne ["readme.txt"; "tiles.zip"]
             folder_uniform None).
    repeat constructor.
  - apply (no_usable_input_exits epsg_ne
             ["notes.tif"; "tcd_x_00_2025.tif"; "readme.txt"]
             folder_uniform (Some "2025")).
    + vm_compute. discriminate.
    + match goal with
      | |- Forall _ ?fl =>
          let fl' := eval vm_compute in fl in change fl with fl'
      end.
      repeat (constructor; [vm_compute; reflexivity|]). constructor.
Defined.



(** ** Pixel centres and pixel edges *)

Lemma inject_nat_bounds (i w : nat) :
  i < w ->
  (0 <= inject_Z (Z.of_nat i))%Q
  /\ (inject_Z (Z.of_nat i) + 1 <= inject_Z (Z.of_nat w))%Q.
Proof.
  intros Hi. split.
  - change 0%Q with (inject_Z 0). rewrite <- Zle_Qle. lia.
  - change 1%Q with (inject_Z 1). rewrite <- inject_Z_plus, <- Zle_Qle. lia.
Qed.

(** X12: read in exact arithmetic and without shear (b = 0), the i-th
    x-coordinate is the midpoint of the i-th pixel's edges c + i*a and
    c + (i+1)*a, so for a step that is not zero every x-coordinate lies
    strictly between the raster's edges c and c + cols*a. *)
Theorem x_centres_inside_extent (t : Affine Q) (h w : nat) :
  (tr_b t == 0)%Q ->
  exists l x y,
    compute_coordsQ t h w = (l, Ok (x, y))
    /\ forall i xi, x !! i = Some xi ->
         let left_edge := (tr_c t + inject_Z (Z.of_nat i) * tr_a t)%Q in
         let right_edge := (tr_c t + (inject_Z (Z.of_nat i) + 1) * tr_a t)%Q in
         let far_edge := (tr_c t + inject_Z (Z.of_nat w) * tr_a t)%Q in
         (xi == (left_edge + right_edge) / 2)%Q
         /\ ((0 < tr_a t)%Q -> (tr_c t < xi)%Q /\ (xi < far_edge)%Q)
         /\ ((tr_a t < 0)%Q -> (far_edge < xi)%Q /\ (xi < tr_c t)%Q).
Proof.
  intros Hb. unfold compute_coordsQ. rewrite compute_coords_eq.
  eexists _, _, _. split; [reflexivity|].
  intros i xi Hi.
  assert (Hlt : i < w).
  { apply lookup_lt_Some in Hi. now rewrite length_map_arange in Hi. }
  rewrite lookup_map_arange in Hi by exact Hlt. injection Hi as <-.
  destruct (inject_nat_bounds i w Hlt) as [H0 H1].
  unfold centre. revert H0 H1 Hb.
  generalize (inject_Z (Z.of_nat i)), (inject_Z (Z.of_nat w)),
    (tr_a t), (tr_b t), (tr_c t).
  intros qi qw a b c H0 H1 Hb. cbv zeta.
  assert (Hmid : (c + (qi + (1 # 2)) * a + (1 # 2) * b
                  == (c + qi * a + (c + (qi + 1) * a)) / 2)%Q).
  { rewrite Hb. field. }
  split; [exact Hmid|]. rewrite Hb. split; intros Ha; split; nra.
Qed.

Lemma x_centres_inside_extent_witness :
  exists l x y,
    compute_coordsQ (mkAffine 2 0 10 0 (-2) 0)%Q 1 2 = (l, Ok (x, y))
    /\ x = [44 # 4; 52 # 4]%Q
    /\ (10 < 52 # 4)%Q /\ (52 # 4 < 10 + 2 * 2)%Q.
Proof.
  destruct (x_centres_inside_extent (mkAffine 2 0 10 0 (-2) 0)%Q 1 2
              ltac:(reflexivity)) as (l & x & y & E & H).
  exists l, x, y. split; [exact E|].
  vm_compute in E. injection E as _ Ex _. subst x. split; [reflexivity|].
  destruct (H 1 (52 # 4)%Q eq_refl) as (_ & Hpos & _).
  exact (Hpos ltac:(reflexivity)).
Defined.

(** ** Failing fast, and the order of the stack *)

Lemma conforms_same_files {CRS px : Type} (crs_ne : CRS -> CRS -> bool)
  (fs fs' : folder CRS px) (h w : nat) (c : CRS) (t : Affine float)
  (rs : list rec) :
  (forall r, r ∈ rs -> fs' (filename r) = fs (filename r)) ->
  Forall (conforms crs_ne fs h w c t) rs ->
  Forall (conforms crs_ne fs' h w c t) rs.
Proof.
  intros Hsame Hall. apply Forall_forall. intros r Hr.
  rewrite Forall_forall in Hall. destruct (Hall r Hr) as (s & Hs & Hg).
  exists s. split; [now rewrite Hsame | exact Hg].
Qed.

(** X13: the check stops at the first tile that differs: nothing the
    folder holds under the names of the later records changes its log or
    its exit message, so those files are not looked at. *)
Theorem check_stops_at_first_mismatch {CRS px : Type}
  (crs_ne : CRS -> CRS -> bool) (fs fs' : folder CRS px) (h w : nat) (c : CRS)
  (t : Affine float) (pre : list rec) (r : rec) (post : list rec)
  (s : raster CRS px) :
  Forall (conforms crs_ne fs h w c t) pre ->
  fs (filename r) = Some s ->
  same_geometry crs_ne s h w c t = false ->
  (forall r', r' ∈ pre ++ [r] -> fs' (filename r') = fs (filename r')) ->
  check_consistency crs_ne fs' h w c t (pre ++ r :: post)
  = check_consistency crs_ne fs h w c t (pre ++ r :: post).
Proof.
  intros Hpre Hs Hg Hsame.
  assert (Hpre' : Forall (conforms crs_ne fs' h w c t) pre).
  { apply (conforms_same_files crs_ne fs fs'); [|exact Hpre].
    intros r' Hr'. apply Hsame. apply elem_of_app. now left. }
  assert (Hs' : fs' (filename r) = Some s).
  { rewrite Hsame; [exact Hs|]. apply elem_of_app. right. now left. }
  assert (Hgen : forall n i,
             check_from crs_ne fs' h w c t n i (pre ++ r :: post)
             = check_from crs_ne fs h w c t n i (pre ++ r :: post)).
  { clear Hsame. intros n.
    induction pre as [|r' pre IH]; intros i.
    - cbn [app].
      rewrite (check_from_deviating crs_ne fs' h w c t n i r post s Hs' Hg).
      now rewrite (check_from_deviating crs_ne fs h w c t n i r post s Hs Hg).
    - cbn [app].
      rewrite (check_from_conforming crs_ne fs' h w c t n i r' _
                 (Forall_inv Hpre')).
      rewrite (check_from_conforming crs_ne fs h w c t n i r' _
                 (Forall_inv Hpre)).
      now rewrite (IH (Forall_inv_tail Hpre) (Forall_inv_tail Hpre')). }
  rewrite !check_consistency_eq. now rewrite Hgen.
Qed.

Lemma check_stops_at_first_mismatch_witness :
  check_consistency epsg_ne (fun fn => if String.eqb fn "tcd_f_01_2025.tif"
                                       then None else folder_one_shifted fn)
    2 2 4326 north_up_grid [rec_f00; rec_m00; rec_f01]
  = ([LogChecking], Exit "Transform mismatch tcd_m_00_2025.tif").
Proof.
  refine (eq_trans
            (check_stops_at_first_mismatch epsg_ne folder_one_shifted
               (fun fn => if String.eqb fn "tcd_f_01_2025.tif"
                          then None else folder_one_shifted fn)
               2 2 4326 north_up_grid [rec_f00] rec_m00 [rec_f01] tile_shifted
               _ _ _ _) _).
  - constructor; [|constructor]. exists tile_f32. split; reflexivity.
  - reflexivity.
  - reflexivity.
  - intros r' Hr'.
    apply elem_of_cons in Hr' as [-> | Hr']; [reflexivity|].
    apply list_elem_of_singleton in Hr'. subst r'. reflexivity.
  - reflexivity.
Defined.

(** X14: the stack keeps the order of the axes: [data[gi][ai]] is the
    tile of the gi-th gender and the ai-th age, a delayed read of the
    pair's file when the matrix names one and zeros otherwise; past the
    end of the gender axis there is nothing. *)
Theorem grid_follows_axes (recs : list rec) (h w : nat) (dtype : string)
  (genders ages : list string) :
  genders <> [] -> ages <> [] ->
  exists l data,
    build_data recs h w dtype genders ages = (l, Ok data)
    /\ (forall gi ai g a,
          genders !! gi = Some g -> ages !! ai = Some a ->
          exists row,
            item data gi = Some row
            /\ item row ai
               = Some (match tile_matrix recs !! (g, a) with
                       | Some (String ch fn) =>
                           Rechunk (FromDelayed (String ch fn) [h; w] dtype)
                             chunk1024
                       | _ => Zeros [h; w] dtype chunk1024
                       end)
            /\ item row (length ages) = None)
    /\ item data (length genders) = None.
Proof.
  intros Hg Ha.
  eexists _, _. split; [now apply build_data_run|]. split.
  - intros gi ai g a Hgi Hai.
    destruct (grid_item (tile_matrix recs) h w dtype genders ages gi ai g a
                Hgi Hai) as (row & Hrow & Hslab).
    exists row. split; [exact Hrow|]. split; [exact Hslab|].
    unfold grid in Hrow. cbn [item] in Hrow.
    change (map ?f genders) with (f <$> genders) in Hrow.
    rewrite list_lookup_fmap, Hgi in Hrow. injection Hrow as <-.
    cbn [item]. apply lookup_ge_None. now rewrite length_map.
  - unfold grid. cbn [item]. apply lookup_ge_None. now rewrite length_map.
Qed.

Lemma grid_follows_axes_witness :
  exists l data,
    build_data [rec_f00; rec_m00; rec_f01] 2 2 "float32" ["f"; "m"] ["00"; "01"]
    = (l, Ok data)
    /\ exists row,
         item data 0 = Some row
         /\ item row 1
            = Some (Rechunk (FromDelayed "tcd_f_01_2025.tif" [2; 2] "float32")
                      chunk1024).
Proof.
  destruct (grid_follows_axes [rec_f00; rec_m00; rec_f01] 2 2 "float32"
              ["f"; "m"] ["00"; "01"] ltac:(discriminate) ltac:(discriminate))
    as (l & data & E & H & _).
  exists l, data. split; [exact E|].
  destruct (H 0 1 "f" "01" eq_refl eq_refl) as (row & Hrow & Hslab & _).
  exists row. split; [exact Hrow | exact Hslab].
Defined.

(** ** Tiles of other years *)

(** X15: only the records of the chosen year count: two listings that
    choose the same year and have the same records for it end the same
    way and log the same lines, but for the number of .tif files
    found. *)
Theorem other_years_do_not_matter {CRS px : Type}
  (crs_ne : CRS -> CRS -> bool) (listdir listdir' : list string)
  (fs : folder CRS px) (YEAR_FILTER : option string) (yr : string) :
  let files := filter (fun f => endswith (lower f) ".tif" = true) listdir in
  let files' := filter (fun f => endswith (lower f) ".tif" = true) listdir' in
  parse_files files <> [] -> parse_files files' <> [] ->
  match YEAR_FILTER with
  | Some (String ch y) => yr = String ch y
  | _ => last (sorted_set (map year (parse_files files))) = Some yr
         /\ last (sorted_set (map year (parse_files files'))) = Some yr
  end ->
  filter (fun r => year r = yr) (parse_files files)
  = filter (fun r => year r = yr) (parse_files files') ->
  exists l res,
    main crs_ne listdir fs YEAR_FILTER
    = (LogScanning :: LogFound (length files) :: l, res)
    /\ main crs_ne listdir' fs YEAR_FILTER
       = (LogScanning :: LogFound (length files') :: l, res).
Proof.
  intros files files' Hne Hne' Hyr Hsame.
  destruct (main_cases crs_ne listdir fs YEAR_FILTER Hne) as (y1 & Hy1 & Hc).
  destruct (main_cases crs_ne listdir' fs YEAR_FILTER Hne') as (y2 & Hy2 & Hc').
  fold files in Hy1, Hc. fold files' in Hy2, Hc'.
  assert (y1 = yr) as ->.
  { destruct YEAR_FILTER as [[|ch y]|]; try congruence;
      destruct Hyr as [Hyr _]; congruence. }
  assert (y2 = yr) as ->.
  { destruct YEAR_FILTER as [[|ch y]|]; try congruence;
      destruct Hyr as [_ Hyr]; congruence. }
  cbv zeta in Hc, Hc'. rewrite <- Hsame in Hc'.
  destruct (filter (fun r => year r = yr) (parse_files files))
    as [|r0 recs'].
  { rewrite Hc, Hc'. eexists _, _. split; reflexivity. }
  destruct (fs (filename r0)) as [s|].
  2: { rewrite Hc, Hc'. eexists _, _. split; reflexivity. }
  destruct (check_consistency crs_ne fs (height s) (width s) (crs s)
              (transform s) (r0 :: recs')) as [lc [u | msg | err]];
    rewrite Hc, Hc'; eexists _, _; split; reflexivity.
Qed.

Lemma other_years_do_not_matter_witness :
  exists l res,
    main epsg_ne ["tcd_f_00_2025.tif"; "tcd_f_00_2024.tif"; "tcd_m_00_2025.tif"]
      folder_uniform (Some "2025")
    = (LogScanning :: LogFound 3 :: l, res)
    /\ main epsg_ne ["tcd_f_00_2025.tif"; "tcd_m_00_2025.tif"]
         folder_uniform (Some "2025")
       = (LogScanning :: LogFound 2 :: l, res).
Proof.
  refine (other_years_do_not_matter epsg_ne
            ["tcd_f_00_2025.tif"; "tcd_f_00_2024.tif"; "tcd_m_00_2025.tif"]
            ["tcd_f_00_2025.tif"; "tcd_m_00_2025.tif"]
            folder_uniform (Some "2025") "2025" _ _ eq_refl _).
  - vm_compute. discriminate.
  - vm_compute. discriminate.
  - vm_compute. reflexivity.
Defined.
